(** * Verification of the script runner, [Automation/main.py]

  The runner takes a fixed list of script paths, reads a repetition count
  out of each file name, and runs every script that many times as a child
  process, sleeping a random delay before each attempt.  The units are
  handed to a process pool and the outcomes are gathered into a list of
  successful and a list of failed scripts.

  The development embeds the functions of [main.py] one by one:
  [parse_repetitions], [validate_script], [get_random_delay],
  [run_script] and the result loop of [main].  Effects are explicit: a
  function that logs, sleeps, draws a random number or spawns a child is a
  computation in the monad [M] below, which threads a [State] (how much of
  the environment has been consumed, and the chronological trace of
  effects) and may end with a Python exception.

  Conventions of the model.
  - A Python [str] is a [string] of 8-bit characters.  For these
    characters the class [\d] of the [re] module is exactly ['0'..'9'].
  - A Python [int] is a [Z].
  - A Python [float] is an exact rational ([Q]); rounding of the binary
    format is not part of the model.
  - [PyExn] stands for an instance of Python's [Exception].  Signals that
    derive from [BaseException] only ([KeyboardInterrupt], [SystemExit])
    are outside the model. *)

From Stdlib Require Import Bool Arith ZArith NArith QArith Lia Lqa List.
From Stdlib Require Import Ascii String Permutation.
From Stdlib Require Import Qround DecimalString DecimalNat.
Import ListNotations.

Open Scope string_scope.
Open Scope Z_scope.

(* ================================================================== *)
(** * Python library functions used by the runner *)

Module Py.

(** The line feed character, ["\n"]. *)
Definition LF : ascii := ascii_of_nat 10.

(** [os.path.basename], as [posixpath] has it:
    [i = p.rfind('/') + 1; return p[i:]].
    [after_last_slash tail p] scans [p]; [tail] is the text after the
    last slash seen so far. *)
Fixpoint after_last_slash (tail p : string) : string :=
  match p with
  | EmptyString => tail
  | String c rest =>
      if Ascii.eqb c "/" then after_last_slash rest rest
      else after_last_slash tail rest
  end.

Definition basename (p : string) : string := after_last_slash p p.

(** [\d] on 8-bit characters. *)
Definition is_digit (c : ascii) : bool :=
  ((48 <=? nat_of_ascii c) && (nat_of_ascii c <=? 57))%nat.

Definition digit_value (c : ascii) : Z := Z.of_nat (nat_of_ascii c) - 48.

(** [int(s)] for a string of decimal digits.  The interpreter's limit on
    the number of digits of a literal is not modelled. *)
Fixpoint int_acc (acc : Z) (s : string) : Z :=
  match s with
  | EmptyString => acc
  | String c rest => int_acc (10 * acc + digit_value c) rest
  end.

Definition int (s : string) : Z := int_acc 0 s.

(** ** [re.search(r'-(\d+)\.py$', s)]

    The matcher is the backtracking search of the [re] module,
    specialised to this pattern.  It returns [group(1)] of the leftmost
    match. *)

(** [$] without [re.MULTILINE]: the end of the string, or the position
    just before a line feed that is the last character of the string. *)
Definition at_dollar (s : string) : bool :=
  match s with
  | EmptyString => true
  | String c EmptyString => Ascii.eqb c LF
  | _ => false
  end.

(** Match the literal [lit] at the front of [s]; give back what follows. *)
Fixpoint literal (lit s : string) : option string :=
  match lit, s with
  | EmptyString, _ => Some s
  | String a lit', String c rest =>
      if Ascii.eqb a c then literal lit' rest else None
  | String _ _, EmptyString => None
  end.

(** [\.py$] *)
Definition dot_py_end (s : string) : bool :=
  match literal ".py" s with
  | Some rest => at_dollar rest
  | None => false
  end.

(** [(\d+)\.py$] with [grp] the digits the group already holds.  The
    quantifier is greedy: it first tries to take one more digit, and only
    when the rest of the pattern then fails does it stop where it is. *)
Fixpoint group_then_end (grp s : string) : option string :=
  match s with
  | EmptyString => None
  | String c rest =>
      if is_digit c then
        let grp' := grp ++ String c EmptyString in
        match group_then_end grp' rest with
        | Some g => Some g
        | None => if dot_py_end rest then Some grp' else None
        end
      else None
  end.

(** The whole pattern, anchored at the front of [s]. *)
Definition match_here (s : string) : option string :=
  match s with
  | EmptyString => None
  | String c rest =>
      if Ascii.eqb c "-" then group_then_end EmptyString rest else None
  end.

(** [re.search]: try every start position, from left to right. *)
Fixpoint re_search (s : string) : option string :=
  match match_here s with
  | Some g => Some g
  | None =>
      match s with
      | EmptyString => None
      | String _ rest => re_search rest
      end
  end.

(** ** [random]

    [random.random()] returns [k / 2^53] for a 53-bit integer [k];
    [raw] is the integer taken from the generator. *)
Definition random (raw : N) : Q :=
  Z.of_N (raw mod 2 ^ 53) # (2 ^ 53).

(** [random.uniform(a, b)]: [a + (b - a) * self.random()]. *)
Definition uniform (a b : Q) (raw : N) : Q :=
  (a + (b - a) * random raw)%Q.

End Py.

(* ================================================================== *)
(** * Effects *)

Inductive level := INFO | WARNING | ERROR.

(** An instance of [Exception].  [subprocess.CalledProcessError] carries
  the exit status and the captured output of the child; every other class
  is kept by its name and its text ([str(e)]). *)
Inductive PyExn :=
| CalledProcessError (returncode : Z) (stdout stderr : string)
| OtherException (class text : string).

(** A formatted string literal, kept as its pieces: the literal text and
  the values of the replacement fields. *)
Inductive fragment :=
| Lit (text : string)          (* literal text *)
| FStr (s : string)            (* {s} for a str *)
| FInt (n : Z)                 (* {n} for an int *)
| FFixed2 (x : Q)              (* {x:.2f} *)
| FList (l : list string)      (* {l} for a list of str *)
| FExn (e : PyExn).            (* {e} for an exception *)

Definition message := list fragment.

Inductive probe := Exists | IsFile | AccessR.

(** What a computation does to the world, in the order it does it.  [Log]
  is a call of the module's logger at the given level. *)
Inductive event :=
| Log (lvl : level) (msg : message)
| Stat (q : probe) (path : string)
| Sleep (seconds : Q)
| Spawn (argv : list string).

(** How a call of [subprocess.run(argv, check=True, capture_output=True,
  text=True)] ends: the child exits with a status, or the call itself
  raises (the interpreter is not found, the output cannot be decoded). *)
Inductive completed :=
| Exited (returncode : Z) (stdout stderr : string)
| RunRaised (class text : string).

(** The world a worker process runs in. *)
Record Env := mkEnv {
  path_exists : string -> bool;          (* os.path.exists *)
  path_isfile : string -> bool;          (* os.path.isfile *)
  access_R_OK : string -> bool;          (* os.access(_, os.R_OK) *)
  entropy : nat -> N;                    (* the i-th draw of the generator *)
  child : nat -> list string -> completed  (* the i-th child process *)
}.

Record State := mkState {
  draws : nat;           (* random numbers drawn so far *)
  spawned : nat;         (* child processes started so far *)
  trace : list event     (* effects so far, oldest first *)
}.

Definition init : State := mkState 0 0 [].

Inductive outcome (A : Type) :=
| Returns (a : A)
| Raises (e : PyExn).
Arguments Returns {A} a.
Arguments Raises {A} e.

Definition M (A : Type) : Type := State -> outcome A * State.

Definition ret {A} (a : A) : M A := fun st => (Returns a, st).

Definition raise {A} (e : PyExn) : M A := fun st => (Raises e, st).

Definition bind {A B} (m : M A) (k : A -> M B) : M B :=
  fun st =>
    match m st with
    | (Returns a, st') => k a st'
    | (Raises e, st') => (Raises e, st')
    end.

Notation "x <- m ;; k" := (bind m (fun x => k))
  (at level 61, m at next level, right associativity).
Notation "m ;; k" := (bind m (fun _ => k))
  (at level 61, right associativity).

Definition emit (e : event) : M unit :=
  fun st => (Returns tt, mkState (draws st) (spawned st) (trace st ++ [e])).

Definition log (lvl : level) (msg : message) : M unit := emit (Log lvl msg).

(** [try: body except ...: handler]: [handler e] is [None] when no
  [except] clause matches [e], which then keeps propagating. *)
Definition try_except {A} (body : M A) (handler : PyExn -> option (M A)) : M A :=
  fun st =>
    match body st with
    | (Returns a, st') => (Returns a, st')
    | (Raises e, st') =>
        match handler e with
        | Some h => h st'
        | None => (Raises e, st')
        end
    end.

(** The value and the final state of a computation. *)
Definition value {A} (r : outcome A * State) : outcome A := fst r.
Definition final {A} (r : outcome A * State) : State := snd r.

(** [range(n)] *)
Definition range (n : Z) : list Z := map Z.of_nat (seq 0 (Z.to_nat n)).

(* ================================================================== *)
(** * The functions of [main.py] *)

(** [parse_repetitions(script_path)] *)
Definition parse_repetitions (script_path : string) : M Z :=
  let filename := Py.basename script_path in
  match Py.re_search filename with
  | Some grp =>
      let repetitions := Py.int grp in
      log INFO [Lit "Script "; FStr filename; Lit " will be repeated ";
                FInt repetitions; Lit " times"] ;;
      ret repetitions
  | None =>
      log WARNING [Lit "No repetition number found for "; FStr filename;
                   Lit ". Defaulting to 1."] ;;
      ret 1
  end.

Section Worker.

Variable env : Env.

Definition answer (q : probe) (path : string) : bool :=
  match q with
  | Exists => path_exists env path
  | IsFile => path_isfile env path
  | AccessR => access_R_OK env path
  end.

(** One of [os.path.exists], [os.path.isfile], [os.access(_, os.R_OK)]. *)
Definition stat (q : probe) (path : string) : M bool :=
  emit (Stat q path) ;; ret (answer q path).

(** [validate_script(script_path)] *)
Definition validate_script (script_path : string) : M bool :=
  e <- stat Exists script_path ;;
  if negb e then
    log ERROR [Lit "Script does not exist: "; FStr script_path] ;;
    ret false
  else
  f <- stat IsFile script_path ;;
  if negb f then
    log ERROR [Lit "Not a file: "; FStr script_path] ;;
    ret false
  else
  r <- stat AccessR script_path ;;
  if negb r then
    log ERROR [Lit "Script is not readable: "; FStr script_path] ;;
    ret false
  else
  ret true.

(** [get_random_delay(min_delay=3, max_delay=10)] *)
Definition get_random_delay (min_delay max_delay : Q) : M Q :=
  fun st =>
    (Returns (Py.uniform min_delay max_delay (entropy env (draws st))),
     mkState (S (draws st)) (spawned st) (trace st)).

Definition default_min_delay : Q := 3.
Definition default_max_delay : Q := 10.

(** [time.sleep(delay)] *)
Definition sleep (delay : Q) : M unit := emit (Sleep delay).

(** [subprocess.run(argv, check=True, capture_output=True, text=True)]:
    with [check=True] a non-zero exit status is raised as
    [CalledProcessError]. *)
Definition subprocess_run (argv : list string) : M unit :=
  fun st =>
    let st' := mkState (draws st) (S (spawned st)) (trace st ++ [Spawn argv]) in
    match child env (spawned st) argv with
    | Exited 0 _ _ => (Returns tt, st')
    | Exited code out err => (Raises (CalledProcessError code out err), st')
    | RunRaised class text => (Raises (OtherException class text), st')
    end.

(** The body of [for attempt in range(max_repetitions)] in [run_script].
    [Some b] stands for [return b]; [None] lets the loop go on. *)
Definition attempt_body (script_path : string) (max_repetitions attempt : Z)
  : M (option bool) :=
  delay <- get_random_delay default_min_delay default_max_delay ;;
  log INFO [Lit "Attempt "; FInt (attempt + 1); Lit "/"; FInt max_repetitions;
            Lit " for "; FStr script_path; Lit ": Delay "; FFixed2 delay;
            Lit "s"] ;;
  sleep delay ;;
  try_except
    (subprocess_run ["python"; script_path] ;;
     log INFO [Lit "Successfully completed "; FStr script_path;
               Lit " (Attempt "; FInt (attempt + 1); Lit ")"] ;;
     ret None)
    (fun e =>
       match e with
       | CalledProcessError _ out err =>
           Some (log ERROR [Lit "Error executing "; FStr script_path;
                            Lit " (Attempt "; FInt (attempt + 1); Lit "/";
                            FInt max_repetitions; Lit "):"] ;;
                 log ERROR [Lit "STDOUT: "; FStr out] ;;
                 log ERROR [Lit "STDERR: "; FStr err] ;;
                 ret (Some false))
       | OtherException _ _ => None
       end).

(** The loop of [run_script] over the attempts still to make, followed by
    the final [return True]. *)
Fixpoint attempts (script_path : string) (max_repetitions : Z)
         (todo : list Z) : M bool :=
  match todo with
  | [] => ret true
  | attempt :: rest =>
      r <- attempt_body script_path max_repetitions attempt ;;
      match r with
      | Some b => ret b
      | None => attempts script_path max_repetitions rest
      end
  end.

(** [run_script(script_path)] *)
Definition run_script (script_path : string) : M bool :=
  valid <- validate_script script_path ;;
  if negb valid then ret false
  else
    max_repetitions <- parse_repetitions script_path ;;
    attempts script_path max_repetitions (range max_repetitions).

End Worker.

(* ================================================================== *)
(** * The orchestrator *)

(** The list of scripts of [main]. *)
Definition scripts : list string :=
  [ "Automation-Survey/Automation/BSME-2-M-105.py";
    "Automation-Survey/Automation/BSA-3-M-20.py";
    "Automation-Survey/Automation/BSED-2-F-20.py";
    "Automation-Survey/Automation/BSED-3-M-5.py";
    "Automation-Survey/Automation/BSED-3-F-40.py" ].

(** A future is named by the position at which it was submitted. *)
Definition future := nat.

(** [{executor.submit(run_script, script): script for script in scripts}] *)
Definition submit_all (l : list string) : list (future * string) :=
  combine (seq 0 (List.length l)) l.

(** [script_futures[future]] *)
Fixpoint getitem (d : list (future * string)) (f : future) : M string :=
  match d with
  | [] => raise (OtherException "KeyError" "")
  | (k, v) :: d' => if Nat.eqb k f then ret v else getitem d' f
  end.

Section Orchestrator.

(** What [future.result()] does for each future: it returns the value
    [run_script] returned in the worker, or raises. *)
Variable resolve : future -> outcome bool.

Definition future_result (f : future) : M bool :=
  fun st => (resolve f, st).

(** The loop [for future in as_completed(script_futures)]; [finished]
    lists the futures in the order in which they finish. *)
Fixpoint gather (script_futures : list (future * string))
         (finished : list future) (successful_scripts failed_scripts : list string)
  : M (list string * list string) :=
  match finished with
  | [] => ret (successful_scripts, failed_scripts)
  | f :: rest =>
      script <- getitem script_futures f ;;
      lists <- try_except
        (result <- future_result f ;;
         if (result : bool) then ret ((successful_scripts ++ [script])%list, failed_scripts)
         else ret (successful_scripts, (failed_scripts ++ [script])%list))
        (fun e =>
           Some (log ERROR [Lit "Unexpected error with "; FStr script;
                            Lit ": "; FExn e] ;;
                 ret (successful_scripts, (failed_scripts ++ [script])%list))) ;;
      gather script_futures rest (fst lists) (snd lists)
  end.

(** The pool part of [main], for a list of scripts and a completion
    order.  [main] itself returns nothing; the two lists are given back
    here so that they can be spoken of. *)
Definition run_pool (l : list string) (finished : list future)
  : M (list string * list string) :=
  lists <- gather (submit_all l) finished [] [] ;;
  log INFO [Lit "Execution Summary:"] ;;
  log INFO [Lit "Successful Scripts: "; FList (fst lists)] ;;
  log INFO [Lit "Failed Scripts: "; FList (snd lists)] ;;
  ret lists.

End Orchestrator.

(* ================================================================== *)
(** * Vocabulary of the specification *)

(** [occurs c s]: the character [c] is somewhere in [s]. *)
Fixpoint occurs (c : ascii) (s : string) : bool :=
  match s with
  | EmptyString => false
  | String x rest => Ascii.eqb x c || occurs c rest
  end.

(** Every character of [s] is a decimal digit. *)
Fixpoint all_digits (s : string) : bool :=
  match s with
  | EmptyString => true
  | String c rest => Py.is_digit c && all_digits rest
  end.


(** What [$] leaves after [.py]: nothing, or one final line feed. *)
Definition line_end (e : string) : Prop :=
  e = "" \/ e = String Py.LF "".

(** [s] carries the digits [g] in the position the pattern looks for. *)
Definition suffix_match (s g : string) : Prop :=
  exists pre e,
    s = pre ++ "-" ++ g ++ ".py" ++ e /\
    g <> "" /\ all_digits g = true /\ line_end e.

(** The count [parse_repetitions] returns for a path. *)
Definition repetitions_of (script_path : string) : Z :=
  match Py.re_search (Py.basename script_path) with
  | Some grp => Py.int grp
  | None => 1
  end.

(** The one entry [parse_repetitions] logs for a path. *)
Definition repetitions_entry (script_path : string) : event :=
  let filename := Py.basename script_path in
  match Py.re_search filename with
  | Some grp =>
      Log INFO [Lit "Script "; FStr filename; Lit " will be repeated ";
                FInt (Py.int grp); Lit " times"]
  | None =>
      Log WARNING [Lit "No repetition number found for "; FStr filename;
                   Lit ". Defaulting to 1."]
  end.

(** The file name ["a-5.py\n"]: a line feed follows the extension. *)
Definition name_with_line_feed : string := "a-5.py" ++ String Py.LF "".

(** The last character of a string. *)
Fixpoint last_char (s : string) : option ascii :=
  match s with
  | EmptyString => None
  | String c EmptyString => Some c
  | String _ rest => last_char rest
  end.

(** [st] after the events [evs]. *)
Definition after (st : State) (evs : list event) : State :=
  mkState (draws st) (spawned st) (trace st ++ evs).

(** Events of an attempt: a sleep or a child process. *)
Definition attempt_event (ev : event) : bool :=
  match ev with
  | Sleep _ | Spawn _ => true
  | Log _ _ | Stat _ _ => false
  end.

(** The three checks together. *)
Definition validation (env : Env) (path : string) : bool :=
  path_exists env path && path_isfile env path && access_R_OK env path.

Definition not_exist_entry (path : string) : event :=
  Log ERROR [Lit "Script does not exist: "; FStr path].

Definition not_file_entry (path : string) : event :=
  Log ERROR [Lit "Not a file: "; FStr path].

Definition not_readable_entry (path : string) : event :=
  Log ERROR [Lit "Script is not readable: "; FStr path].

(** What [validate_script] does to the world: the checks it makes, in
    order, and the entry it logs. *)
Definition validation_events (env : Env) (path : string) : list event :=
  if negb (path_exists env path) then
    [Stat Exists path; not_exist_entry path]
  else if negb (path_isfile env path) then
    [Stat Exists path; Stat IsFile path; not_file_entry path]
  else if negb (access_R_OK env path) then
    [Stat Exists path; Stat IsFile path; Stat AccessR path;
     not_readable_entry path]
  else
    [Stat Exists path; Stat IsFile path; Stat AccessR path].


(** The child exited with status zero. *)
Definition succeeded (c : completed) : bool :=
  match c with
  | Exited 0 _ _ => true
  | _ => false
  end.

(** The child exited with a status other than zero. *)
Definition failed (c : completed) : bool :=
  match c with
  | Exited code _ _ => negb (code =? 0)
  | RunRaised _ _ => false
  end.

(** The command line of a unit. *)
Definition command (script_path : string) : list string :=
  ["python"; script_path].

(** The child of attempt [a] (counted from 1) of a run of [run_script]
    that starts in state [st]. *)
Definition attempt_outcome (env : Env) (st : State) (script_path : string)
           (a : Z) : completed :=
  child env (spawned st + Z.to_nat (a - 1)) (command script_path).

(** The number of attempts a run made: the children it started. *)
Definition attempts_made {A} (st : State) (r : outcome A * State) : Z :=
  Z.of_nat (spawned (final r) - spawned st).

(** The script a future was submitted for. *)
Definition script_of (l : list string) (f : future) : string := nth f l "".

(** The future's result is the value true. *)
Definition won (resolve : future -> outcome bool) (f : future) : bool :=
  match resolve f with
  | Returns true => true
  | _ => false
  end.

Definition lost (resolve : future -> outcome bool) (f : future) : bool :=
  negb (won resolve f).

(** The entry logged when the result of [script]'s future raises [e]. *)
Definition error_entry (script : string) (e : PyExn) : event :=
  Log ERROR [Lit "Unexpected error with "; FStr script; Lit ": "; FExn e].

(** The entries the loop logs, in the order the futures finish. *)
Definition error_entries (resolve : future -> outcome bool) (l : list string)
           (finished : list future) : list event :=
  flat_map (fun f => match resolve f with
                     | Raises e => [error_entry (script_of l f) e]
                     | Returns _ => []
                     end) finished.

(** The three entries of the summary. *)
Definition summary (successful failed : list string) : list event :=
  [Log INFO [Lit "Execution Summary:"];
   Log INFO [Lit "Successful Scripts: "; FList successful];
   Log INFO [Lit "Failed Scripts: "; FList failed]].

(** ** Sample worlds *)

(** Every path is a readable file and every child exits with status 0. *)
Definition world_ok : Env :=
  mkEnv (fun _ => true) (fun _ => true) (fun _ => true)
        (fun i => N.of_nat i) (fun _ _ => Exited 0 "" "").

(** No path exists. *)
Definition world_missing : Env :=
  mkEnv (fun _ => false) (fun _ => false) (fun _ => false)
        (fun i => N.of_nat i) (fun _ _ => Exited 0 "" "").

(** Every path exists and is a directory. *)
Definition world_directory : Env :=
  mkEnv (fun _ => true) (fun _ => false) (fun _ => true)
        (fun i => N.of_nat i) (fun _ _ => Exited 0 "" "").

(** As [world_ok], but the second child exits with status 2. *)
Definition world_flaky : Env :=
  mkEnv (fun _ => true) (fun _ => true) (fun _ => true)
        (fun i => N.of_nat i)
        (fun i _ => if Nat.eqb i 1 then Exited 2 "" "boom" else Exited 0 "" "").

(** The worlds of the five units of [main] when the first script is
    missing. *)
Definition worlds_one_missing (f : future) : Env :=
  if Nat.eqb f 0 then world_missing else world_ok.

(** Futures of the five scripts: the third raises, the others return
    true. *)
Definition sample_results (f : future) : outcome bool :=
  if Nat.eqb f 2 then Raises (OtherException "BrokenProcessPool" "worker died")
  else Returns true.

(** [main], from the submission of the scripts to the summary.  The
    future of a unit resolves to what [run_script] does in the worker that
    runs it, in the world [world f] of that unit. *)
Definition main (world : future -> Env) (finished : list future)
  : M (list string * list string) :=
  run_pool (fun f => value (run_script (world f) (script_of scripts f) init))
           scripts finished.

(* ================================================================== *)
(** * The logger's configuration *)

(** A handler of the [logging] module, with the arguments [main.py]
    builds it from and the format string of its formatter. *)
Inductive handler :=
| RotatingFileHandler (filename : string) (maxBytes backupCount : Z)
                      (fmt : string)
| StreamHandler (fmt : string).







(* ================================================================== *)
(** * The form script, [BSME-M-2-105.py]: [generate_grades] *)






(* ================================================================== *)
(** * The trace of [run_script] *)

(** The delay drawn from draw number [i] of the generator. *)
Definition delay_at (env : Env) (i : nat) : Q :=
  Py.uniform default_min_delay default_max_delay (entropy env i).

Definition attempt_entry (script_path : string) (max_repetitions attempt : Z)
           (delay : Q) : event :=
  Log INFO [Lit "Attempt "; FInt (attempt + 1); Lit "/"; FInt max_repetitions;
            Lit " for "; FStr script_path; Lit ": Delay "; FFixed2 delay;
            Lit "s"].

Definition success_entry (script_path : string) (attempt : Z) : event :=
  Log INFO [Lit "Successfully completed "; FStr script_path;
            Lit " (Attempt "; FInt (attempt + 1); Lit ")"].

Definition failure_entries (script_path : string) (max_repetitions attempt : Z)
           (out err : string) : list event :=
  [Log ERROR [Lit "Error executing "; FStr script_path;
              Lit " (Attempt "; FInt (attempt + 1); Lit "/";
              FInt max_repetitions; Lit "):"];
   Log ERROR [Lit "STDOUT: "; FStr out];
   Log ERROR [Lit "STDERR: "; FStr err]].

(** What the entries after the child say, by the way the child ended. *)
Definition verdict_entries (script_path : string) (max_repetitions attempt : Z)
           (c : completed) : list event :=
  match c with
  | Exited code out err =>
      if code =? 0 then [success_entry script_path attempt]
      else failure_entries script_path max_repetitions attempt out err
  | RunRaised _ _ => []
  end.

(** The events of one turn of the loop that uses draw [d] and starts
    child [s]. *)
Definition attempt_events (env : Env) (script_path : string)
           (max_repetitions attempt : Z) (d s : nat) : list event :=
  ([attempt_entry script_path max_repetitions attempt (delay_at env d);
    Sleep (delay_at env d);
    Spawn (command script_path)] ++
   verdict_entries script_path max_repetitions attempt
                   (child env s (command script_path)))%list.

(** The events of the loop over [todo]. *)
Fixpoint loop_events (env : Env) (script_path : string) (max_repetitions : Z)
         (todo : list Z) (d s : nat) : list event :=
  match todo with
  | [] => []
  | attempt :: rest =>
      (attempt_events env script_path max_repetitions attempt d s ++
       if succeeded (child env s (command script_path))
       then loop_events env script_path max_repetitions rest (S d) (S s)
       else [])%list
  end.

(** The events of a run of [run_script] that starts in [st]. *)
Definition run_events (env : Env) (script_path : string) (st : State)
  : list event :=
  if validation env script_path then
    (validation_events env script_path ++
     repetitions_entry script_path ::
     loop_events env script_path (repetitions_of script_path)
                 (range (repetitions_of script_path))
                 (draws st) (spawned st))%list
  else validation_events env script_path.

Definition is_sleep (ev : event) : bool :=
  match ev with Sleep _ => true | _ => false end.

Definition is_spawn (ev : event) : bool :=
  match ev with Spawn _ => true | _ => false end.

Definition is_error (ev : event) : bool :=
  match ev with Log ERROR _ => true | _ => false end.

(** How many events of [evs] satisfy [f]. *)
Definition count (f : event -> bool) (evs : list event) : nat :=
  List.length (filter f evs).

(** The result of the future is an exception. *)
Definition raised (resolve : future -> outcome bool) (f : future) : bool :=
  match resolve f with
  | Raises _ => true
  | Returns _ => false
  end.

(** Every child of the events [evs] is started right after a sleep. *)
Definition paced (evs : list event) : Prop :=
  forall before argv rest,
    evs = (before ++ Spawn argv :: rest)%list ->
    exists before' seconds, before = (before' ++ [Sleep seconds])%list.

(** A sleep lasts between three and ten seconds; a child is the
    interpreter on the script. *)
Definition well_formed (script_path : string) (ev : event) : Prop :=
  match ev with
  | Sleep seconds => (3 <= seconds /\ seconds <= 10)%Q
  | Spawn argv => argv = ["python"; script_path]
  | Log _ _ | Stat _ _ => True
  end.

(* ================================================================== *)
(** * Strings *)

Section StringFacts.

Lemma append_nil_r (s : string) : s ++ "" = s.
Proof. induction s as [|c s IH]; simpl; [reflexivity | now rewrite IH]. Qed.

Lemma append_assoc (a b c : string) : (a ++ b) ++ c = a ++ (b ++ c).
Proof. induction a as [|x a IH]; simpl; [reflexivity | now rewrite IH]. Qed.

Lemma occurs_append c a b : occurs c (a ++ b) = occurs c a || occurs c b.
Proof.
  induction a as [|x a IH]; simpl; [reflexivity|].
  now rewrite IH, orb_assoc.
Qed.

Lemma all_digits_append a b :
  all_digits (a ++ b) = all_digits a && all_digits b.
Proof.
  induction a as [|x a IH]; simpl; [reflexivity|].
  now rewrite IH, andb_assoc.
Qed.

Lemma digits_no_occurrence c s :
  Py.is_digit c = false -> all_digits s = true -> occurs c s = false.
Proof.
  intros Hc. induction s as [|x s IH]; simpl; [reflexivity|].
  intros H. apply andb_true_iff in H as [Hx Hs].
  rewrite (IH Hs), orb_false_r.
  destruct (Ascii.eqb_spec x c) as [->|]; [congruence | reflexivity].
Qed.

(** A run of digits that stops at a character which is not a digit is
    determined by the text it starts. *)
Lemma digit_run_unique a b x y r r' :
  all_digits a = true -> all_digits b = true ->
  Py.is_digit x = false -> Py.is_digit y = false ->
  a ++ String x r = b ++ String y r' -> a = b.
Proof.
  revert b. induction a as [|c a IH]; intros [|d b]; simpl;
    intros Ha Hb Hx Hy E.
  - reflexivity.
  - injection E as -> _. apply andb_true_iff in Hb as [Hb _]. congruence.
  - injection E as -> _. apply andb_true_iff in Ha as [Ha _]. congruence.
  - injection E as -> E.
    apply andb_true_iff in Ha as [_ Ha]. apply andb_true_iff in Hb as [_ Hb].
    f_equal. now apply (IH b).
Qed.

End StringFacts.

(* ================================================================== *)
(** * The pattern [-(\d+)\.py$] *)

Section Pattern.

Lemma at_dollar_spec s : Py.at_dollar s = true <-> line_end s.
Proof.
  unfold line_end. destruct s as [|c [|d s]]; simpl.
  - split; [now left | reflexivity].
  - destruct (Ascii.eqb_spec c Py.LF) as [->|N]; split; intros H.
    + now right.
    + reflexivity.
    + discriminate.
    + destruct H as [H|H]; [discriminate | injection H as ->; contradiction].
  - split; [discriminate | intros [H|H]; discriminate].
Qed.

Lemma literal_spec lit s r : Py.literal lit s = Some r <-> s = lit ++ r.
Proof.
  revert s. induction lit as [|a lit IH]; intros s; simpl.
  - split; [now intros [= ->] | now intros ->].
  - destruct s as [|c s].
    + split; discriminate.
    + destruct (Ascii.eqb_spec a c) as [->|N].
      * rewrite IH. split; [now intros -> | now intros [= ->]].
      * split; [discriminate | intros [= -> _]; contradiction].
Qed.

Lemma dot_py_end_spec s :
  Py.dot_py_end s = true <-> exists e, s = ".py" ++ e /\ line_end e.
Proof.
  unfold Py.dot_py_end. destruct (Py.literal ".py" s) as [r|] eqn:L.
  - apply literal_spec in L. rewrite at_dollar_spec. split.
    + intros H. now exists r.
    + intros (e & E & H). subst s. injection E as <-. exact H.
  - split; [discriminate|]. intros (e & E & _).
    apply literal_spec in E. congruence.
Qed.

Lemma dot_py_end_not_digit c rest :
  Py.dot_py_end (String c rest) = true -> Py.is_digit c = false.
Proof.
  intros H. apply dot_py_end_spec in H as (e & E & _).
  injection E as -> _. reflexivity.
Qed.

Lemma group_then_end_sound s : forall grp g,
  Py.group_then_end grp s = Some g ->
  exists ds e, g = grp ++ ds /\ ds <> "" /\ all_digits ds = true /\
               s = ds ++ ".py" ++ e /\ line_end e.
Proof.
  induction s as [|c rest IH]; intros grp g; simpl; [discriminate|].
  destruct (Py.is_digit c) eqn:D; [|discriminate].
  destruct (Py.group_then_end (grp ++ String c "") rest) as [g'|] eqn:R.
  - intros [= <-]. apply IH in R as (ds & e & -> & _ & A & -> & L).
    exists (String c ds), e. rewrite append_assoc. simpl. rewrite D, A.
    repeat split; [discriminate | exact L].
  - destruct (Py.dot_py_end rest) eqn:T; [|discriminate].
    intros [= <-]. apply dot_py_end_spec in T as (e & -> & L).
    exists (String c ""), e. simpl. rewrite D.
    repeat split; [discriminate | exact L].
Qed.

Lemma group_then_end_complete ds : forall grp e,
  ds <> "" -> all_digits ds = true -> line_end e ->
  Py.group_then_end grp (ds ++ ".py" ++ e) = Some (grp ++ ds).
Proof.
  induction ds as [|c ds IH]; intros grp e N A L; [contradiction|].
  simpl in A. apply andb_true_iff in A as [D A].
  change (String c ds ++ ".py" ++ e) with (String c (ds ++ ".py" ++ e)).
  cbn [Py.group_then_end]. rewrite D.
  destruct ds as [|d ds].
  - assert (T : Py.dot_py_end (".py" ++ e) = true)
      by (apply dot_py_end_spec; now exists e).
    change ("" ++ ".py" ++ e) with (".py" ++ e). rewrite T.
    reflexivity.
  - rewrite (IH (grp ++ String c "") e); [| discriminate | exact A | exact L].
    now rewrite append_assoc.
Qed.

End Pattern.

Section Search.

Lemma match_here_sound s g :
  Py.match_here s = Some g ->
  exists e, s = "-" ++ g ++ ".py" ++ e /\
            g <> "" /\ all_digits g = true /\ line_end e.
Proof.
  destruct s as [|c rest]; simpl; [discriminate|].
  destruct (Ascii.eqb_spec c "-") as [->|]; [|discriminate].
  intros H. apply group_then_end_sound in H as (ds & e & -> & N & A & -> & L).
  now exists e.
Qed.

Lemma match_here_complete g e :
  g <> "" -> all_digits g = true -> line_end e ->
  Py.match_here ("-" ++ g ++ ".py" ++ e) = Some g.
Proof.
  intros N A L.
  change (Py.match_here (String "-" (g ++ ".py" ++ e)) = Some g).
  unfold Py.match_here. rewrite Ascii.eqb_refl.
  now rewrite (group_then_end_complete g "" e N A L).
Qed.

Lemma re_search_sound s : forall g,
  Py.re_search s = Some g -> suffix_match s g.
Proof.
  induction s as [|c rest IH]; intros g.
  - discriminate.
  - cbn [Py.re_search].
    destruct (Py.match_here (String c rest)) as [g'|] eqn:H.
    + intros [= <-]. apply match_here_sound in H as (e & E & N & A & L).
      exists "", e. now rewrite E.
    + intros R. apply IH in R as (pre & e & -> & N & A & L).
      now exists (String c pre), e.
Qed.

(** The text after the digits holds no hyphen. *)
Lemma tail_no_hyphen g e :
  all_digits g = true -> line_end e -> occurs "-" (g ++ ".py" ++ e) = false.
Proof.
  intros A L. rewrite occurs_append, (digits_no_occurrence "-" g eq_refl A).
  destruct L as [-> | ->]; reflexivity.
Qed.

(** Two ways of reading the pattern's suffix in one text give the same
    digits: the hyphen of the match is the last hyphen of the text. *)
Lemma suffix_match_unique s g g' :
  suffix_match s g -> suffix_match s g' -> g = g'.
Proof.
  intros (pre & e & E & _ & A & L) (pre' & e' & E' & _ & A' & L').
  subst s. revert pre' E'.
  induction pre as [|c pre IH]; intros [|c' pre'] E'; simpl in E'.
  - injection E' as E'.
    destruct L as [-> | ->], L' as [-> | ->]; simpl in E';
      now apply (digit_run_unique g g' "." "." _ _ A A' eq_refl eq_refl) in E'.
  - injection E' as <- E'.
    apply (f_equal (occurs "-")) in E'.
    pose proof (tail_no_hyphen g e A L) as T. simpl in T.
    rewrite T, occurs_append in E'.
    simpl in E'. rewrite orb_true_r in E'. discriminate.
  - injection E' as -> E'.
    apply (f_equal (occurs "-")) in E'.
    pose proof (tail_no_hyphen g' e' A' L') as T. simpl in T.
    rewrite T, occurs_append in E'.
    simpl in E'. rewrite orb_true_r in E'. discriminate.
  - injection E' as _ E'. now apply (IH pre').
Qed.

Lemma re_search_unfold s :
  Py.re_search s =
  match Py.match_here s with
  | Some g => Some g
  | None => match s with
            | EmptyString => None
            | String _ rest => Py.re_search rest
            end
  end.
Proof. destruct s; reflexivity. Qed.

Lemma re_search_complete s g :
  suffix_match s g -> Py.re_search s = Some g.
Proof.
  intros H. assert (U := fun g' => suffix_match_unique s g' g).
  destruct H as (pre & e & -> & N & A & L).
  induction pre as [|c pre IH].
  - change ("" ++ "-" ++ g ++ ".py" ++ e) with ("-" ++ g ++ ".py" ++ e).
    now rewrite re_search_unfold, (match_here_complete g e N A L).
  - change (String c pre ++ "-" ++ g ++ ".py" ++ e)
      with (String c (pre ++ "-" ++ g ++ ".py" ++ e)) in *.
    assert (Here : suffix_match (String c (pre ++ "-" ++ g ++ ".py" ++ e)) g).
    { exists (String c pre), e. repeat split; assumption. }
    rewrite re_search_unfold.
    destruct (Py.match_here (String c (pre ++ "-" ++ g ++ ".py" ++ e)))
      as [g'|] eqn:H.
    + f_equal. apply U; [|exact Here].
      apply match_here_sound in H as (e' & E' & N' & A' & L').
      exists "", e'. rewrite E'. repeat split; assumption.
    + apply IH. intros g' H' _. apply U; [|exact Here].
      destruct H' as (pre' & e' & E' & N' & A' & L').
      exists (String c pre'), e'. rewrite E'. repeat split; assumption.
Qed.

Theorem re_search_spec s g :
  Py.re_search s = Some g <-> suffix_match s g.
Proof. split; [apply re_search_sound | apply re_search_complete]. Qed.

Lemma re_search_none s :
  Py.re_search s = None <-> forall g, ~ suffix_match s g.
Proof.
  split.
  - intros H g M. apply re_search_complete in M. congruence.
  - intros H. destruct (Py.re_search s) as [g|] eqn:R; [|reflexivity].
    apply re_search_sound in R. now apply H in R.
Qed.

End Search.

(* ================================================================== *)
(** * [int] on digit strings *)

Section IntFacts.

Lemma digit_value_range c :
  Py.is_digit c = true -> 0 <= Py.digit_value c <= 9.
Proof.
  unfold Py.is_digit, Py.digit_value. intros H.
  apply andb_true_iff in H as [L U].
  apply Nat.leb_le in L. apply Nat.leb_le in U. lia.
Qed.


Lemma int_acc_lower s : forall acc,
  0 <= acc -> all_digits s = true -> acc <= Py.int_acc acc s.
Proof.
  induction s as [|c s IH]; intros acc P A; cbn [Py.int_acc]; [lia|].
  simpl in A. apply andb_true_iff in A as [D A].
  pose proof (digit_value_range c D).
  specialize (IH (10 * acc + Py.digit_value c) ltac:(lia) A). lia.
Qed.


Lemma int_nonnegative s : all_digits s = true -> 0 <= Py.int s.
Proof. intros A. now apply int_acc_lower. Qed.


End IntFacts.

(* ================================================================== *)
(** * The Repetition Parser *)

Section Parser.

Lemma parse_repetitions_run p st :
  parse_repetitions p st =
  (Returns (repetitions_of p),
   mkState (draws st) (spawned st) (trace st ++ [repetitions_entry p])).
Proof.
  unfold parse_repetitions, repetitions_of, repetitions_entry.
  destruct (Py.re_search (Py.basename p)); reflexivity.
Qed.

(** A file name [<pre>-<digits>.py] gives the number the digits spell. *)
Lemma repetitions_of_suffix p pre ds :
  Py.basename p = pre ++ "-" ++ ds ++ ".py" ->
  ds <> "" -> all_digits ds = true ->
  Py.re_search (Py.basename p) = Some ds.
Proof.
  intros E N A. apply re_search_complete.
  exists pre, "". rewrite E. repeat split; try assumption.
  now left.
Qed.

Lemma last_char_append_py a : last_char (a ++ ".py") = Some "y"%char.
Proof.
  induction a as [|c a IH]; [reflexivity|].
  change (String c a ++ ".py") with (String c (a ++ ".py")).
  cbn [last_char]. destruct (a ++ ".py") eqn:E; [|exact IH].
  destruct a; discriminate.
Qed.

Lemma repetitions_of_nonnegative p : 0 <= repetitions_of p.
Proof.
  unfold repetitions_of.
  destruct (Py.re_search (Py.basename p)) as [g|] eqn:R; [|lia].
  apply re_search_sound in R as (pre & e & _ & _ & A & _).
  now apply int_nonnegative.
Qed.


End Parser.


(** A file name the pattern does not match gives 1, with an entry at
    warning level. *)
Lemma parse_repetitions_default (script_path : string) (st : State) :
  (forall g, ~ suffix_match (Py.basename script_path) g) ->
  parse_repetitions script_path st =
  (Returns 1,
   after st [Log WARNING [Lit "No repetition number found for ";
                          FStr (Py.basename script_path);
                          Lit ". Defaulting to 1."]]).
Proof.
  intros H. apply re_search_none in H. rewrite parse_repetitions_run.
  unfold repetitions_of, repetitions_entry. now rewrite H.
Qed.

Example parse_repetitions_40 :
  value (parse_repetitions "Automation-Survey/Automation/BSED-3-F-40.py" init)
  = Returns 40.
Proof. reflexivity. Qed.

Example parse_repetitions_plain :
  parse_repetitions "plain.py" init =
  (Returns 1,
   after init [Log WARNING [Lit "No repetition number found for ";
                            FStr "plain.py"; Lit ". Defaulting to 1."]]).
Proof. reflexivity. Qed.

(** C2.  The file name ["a-5.py\n"] does not end in [.py], and so not in a
    hyphen, digits and [.py]; yet [parse_repetitions] returns 5 for it and
    logs at info level, with no warning: the [$] of the pattern also
    matches before a line feed that ends the name. *)
Theorem parse_repetitions_line_feed :
  Py.basename name_with_line_feed = name_with_line_feed /\
  (forall pre ds, name_with_line_feed <> pre ++ "-" ++ ds ++ ".py") /\
  parse_repetitions name_with_line_feed init =
  (Returns 5,
   after init [Log INFO [Lit "Script "; FStr name_with_line_feed;
                         Lit " will be repeated "; FInt 5; Lit " times"]]).
Proof.
  split; [reflexivity|]. split; [|reflexivity].
  intros pre ds E. apply (f_equal last_char) in E.
  rewrite <- !append_assoc, last_char_append_py in E. discriminate E.
Qed.




(* ================================================================== *)
(** * States and traces *)

Lemma after_after st a b : after (after st a) b = after st (a ++ b).
Proof. unfold after. simpl. now rewrite app_assoc. Qed.

Lemma emit_run ev st : emit ev st = (Returns tt, after st [ev]).
Proof. reflexivity. Qed.

(* ================================================================== *)
(** * The Script Validator *)

Lemma validate_script_run env path st :
  validate_script env path st =
  (Returns (validation env path), after st (validation_events env path)).
Proof.
  unfold validate_script, validation, validation_events, stat, log, bind, ret.
  rewrite !emit_run. cbn [answer].
  destruct (path_exists env path); cbn [negb andb];
    rewrite ?emit_run, ?after_after; [|reflexivity].
  destruct (path_isfile env path); cbn [negb andb];
    rewrite ?emit_run, ?after_after; [|reflexivity].
  destruct (access_R_OK env path); cbn [negb andb];
    rewrite ?emit_run, ?after_after; reflexivity.
Qed.

Lemma validation_events_quiet env path :
  forallb (fun ev => negb (attempt_event ev)) (validation_events env path) = true.
Proof.
  unfold validation_events.
  destruct (path_exists env path), (path_isfile env path),
    (access_R_OK env path); reflexivity.
Qed.

(** ** C4 *)

(** C4.  [validate_script] returns true exactly when the path exists, is a
    regular file and is readable.  It makes the three checks in that order
    and stops at the first that fails, logging at error level an entry of
    its own for that check: a path that does not exist is rejected after
    one check, a path that is not a file (a directory) after two, an
    unreadable file after three.  The three entries differ. *)
Theorem validate_script_checks (env : Env) (path : string) (st : State) :
  let r := validate_script env path st in
  (value r = Returns true <->
     path_exists env path = true /\ path_isfile env path = true /\
     access_R_OK env path = true) /\
  (exists b, value r = Returns b) /\
  (path_exists env path = false ->
     r = (Returns false, after st [Stat Exists path; not_exist_entry path])) /\
  (path_exists env path = true -> path_isfile env path = false ->
     r = (Returns false,
          after st [Stat Exists path; Stat IsFile path; not_file_entry path])) /\
  (path_exists env path = true -> path_isfile env path = true ->
   access_R_OK env path = false ->
     r = (Returns false,
          after st [Stat Exists path; Stat IsFile path; Stat AccessR path;
                    not_readable_entry path])) /\
  (path_exists env path = true -> path_isfile env path = true ->
   access_R_OK env path = true ->
     r = (Returns true,
          after st [Stat Exists path; Stat IsFile path; Stat AccessR path])) /\
  not_exist_entry path <> not_file_entry path /\
  not_exist_entry path <> not_readable_entry path /\
  not_file_entry path <> not_readable_entry path.
Proof.
  cbv zeta. rewrite validate_script_run.
  unfold validation, validation_events, value. cbn [fst].
  destruct (path_exists env path), (path_isfile env path),
    (access_R_OK env path); cbn [negb andb];
    repeat split; intros; try discriminate; try reflexivity;
    try (destruct H as (? & ? & ?); discriminate);
    try (eexists; reflexivity).
Qed.

Lemma validate_script_checks_witness :
  validate_script world_directory "Automation" init =
  (Returns false,
   after init [Stat Exists "Automation"; Stat IsFile "Automation";
               not_file_entry "Automation"]).
Proof.
  apply (validate_script_checks world_directory "Automation" init);
    reflexivity.
Defined.

(* ================================================================== *)
(** * The Delay Generator *)

Section Delay.

Lemma random_range raw : (0 <= Py.random raw /\ Py.random raw < 1)%Q.
Proof.
  unfold Py.random, Qle, Qlt. cbn [Qnum Qden].
  pose proof (N.mod_upper_bound raw (2 ^ 53)%N ltac:(discriminate)) as H.
  apply N2Z.inj_lt in H.
  change (Z.of_N (2 ^ 53)) with (Z.pos (2 ^ 53)) in H.
  pose proof (N2Z.is_nonneg (raw mod 2 ^ 53)).
  generalize dependent (Z.of_N (raw mod 2 ^ 53)).
  generalize (Z.pos (2 ^ 53)). intros. lia.
Qed.

Lemma uniform_range (a b : Q) raw :
  (a <= b)%Q -> (a <= Py.uniform a b raw /\ Py.uniform a b raw <= b)%Q.
Proof.
  intros H. unfold Py.uniform.
  destruct (random_range raw) as [L U].
  generalize dependent (Py.random raw). intros u L U. split; nra.
Qed.

End Delay.

(** ** C6 *)



(* ================================================================== *)
(** * The Script Runner *)

Section Runner.

Variable env : Env.
Variable script_path : string.

(** One turn of the loop: a delay is drawn, a child is started, and the
    child's end decides how the loop goes on. *)
Lemma attempt_body_run max_repetitions attempt st :
  exists st',
    draws st' = S (draws st) /\ spawned st' = S (spawned st) /\
    match child env (spawned st) (command script_path) with
    | Exited code _ _ =>
        attempt_body env script_path max_repetitions attempt st =
        (Returns (if code =? 0 then None else Some false), st')
    | RunRaised class text =>
        attempt_body env script_path max_repetitions attempt st =
        (Raises (OtherException class text), st')
    end.
Proof.
  unfold attempt_body, bind, get_random_delay, log, sleep, try_except,
    subprocess_run, ret, emit. cbn [draws spawned trace].
  unfold command.
  destruct (child env (spawned st) ["python"; script_path])
    as [[|code|code] out err | class text];
    eexists; (split; [|split; [|reflexivity]]); reflexivity.
Qed.

Lemma attempts_cons max_repetitions attempt rest st :
  exists st',
    draws st' = S (draws st) /\ spawned st' = S (spawned st) /\
    attempts env script_path max_repetitions (attempt :: rest) st =
    match child env (spawned st) (command script_path) with
    | Exited code _ _ =>
        if code =? 0 then attempts env script_path max_repetitions rest st'
        else (Returns false, st')
    | RunRaised class text => (Raises (OtherException class text), st')
    end.
Proof.
  destruct (attempt_body_run max_repetitions attempt st) as (st' & Hd & Hs & E).
  exists st'. split; [exact Hd|]. split; [exact Hs|].
  cbn [attempts]. unfold bind at 1.
  destruct (child env (spawned st) (command script_path)) as [code out err | class text];
    rewrite E; [|reflexivity].
  destruct (code =? 0); reflexivity.
Qed.

(** The loop starts at most one child per element of [todo], draws one
    delay per child, and never gives a child back. *)
Lemma attempts_count n todo : forall st,
  let r := attempts env script_path n todo st in
  (spawned st <= spawned (final r) <= spawned st + List.length todo)%nat /\
  (draws (final r) = draws st + (spawned (final r) - spawned st))%nat.
Proof.
  induction todo as [|a rest IH]; intros st; cbv zeta.
  - simpl. lia.
  - destruct (attempts_cons n a rest st) as (st' & Hd & Hs & E).
    rewrite E. specialize (IH st'). cbv zeta in IH.
    destruct (child env (spawned st) (command script_path)) as [code out err | class text].
    + destruct (code =? 0); cbn [List.length]; [lia|].
      cbn [final snd]. lia.
    + cbn [final snd List.length]. lia.
Qed.

(** The loop returns true exactly when every child it is to start exits
    with status zero. *)
Lemma attempts_true n todo : forall st,
  value (attempts env script_path n todo st) = Returns true <->
  forall k, (k < List.length todo)%nat ->
            succeeded (child env (spawned st + k) (command script_path)) = true.
Proof.
  induction todo as [|a rest IH]; intros st.
  - simpl. split; [intros _ k H; lia | reflexivity].
  - destruct (attempts_cons n a rest st) as (st' & Hd & Hs & E).
    rewrite E. split.
    + intros H k Hk.
      destruct (child env (spawned st) (command script_path)) as [code out err | class text] eqn:C;
        [|discriminate].
      destruct (Z.eqb_spec code 0) as [->|N]; [|discriminate].
      destruct k as [|k].
      * now rewrite Nat.add_0_r, C.
      * pose proof (proj1 (IH st') H k ltac:(simpl in Hk; lia)) as Hk'.
        now rewrite Hs, Nat.add_succ_comm in Hk'.
    + intros H. pose proof (H 0%nat ltac:(simpl; lia)) as H0.
      rewrite Nat.add_0_r in H0.
      destruct (child env (spawned st) (command script_path)) as [[|code|code] out err | class text];
        try discriminate.
      cbn [Z.eqb]. apply IH. intros k Hk.
      rewrite Hs, Nat.add_succ_comm. apply H. simpl. lia.
Qed.

(** When the children before the [k]-th exit with status zero and the
    [k]-th does not, the loop stops there. *)
Lemma attempts_first_failure n todo : forall st k,
  (k < List.length todo)%nat ->
  (forall j, (j < k)%nat -> succeeded (child env (spawned st + j) (command script_path)) = true) ->
  failed (child env (spawned st + k) (command script_path)) = true ->
  let r := attempts env script_path n todo st in
  value r = Returns false /\ spawned (final r) = (spawned st + k + 1)%nat.
Proof.
  induction todo as [|a rest IH]; intros st k Hk Before Fail; cbv zeta.
  - simpl in Hk. lia.
  - destruct (attempts_cons n a rest st) as (st' & Hd & Hs & E).
    rewrite E. destruct k as [|k].
    + rewrite Nat.add_0_r in Fail.
      destruct (child env (spawned st) (command script_path)) as [code out err | class text];
        [|discriminate].
      simpl in Fail. destruct (code =? 0); [discriminate|].
      cbn [value final fst snd]. split; [reflexivity | lia].
    + pose proof (Before 0%nat ltac:(lia)) as H0. rewrite Nat.add_0_r in H0.
      destruct (child env (spawned st) (command script_path)) as [[|code|code] out err | class text];
        try discriminate.
      cbn [Z.eqb].
      destruct (IH st' k) as [V F].
      * simpl in Hk. lia.
      * intros j Hj. rewrite Hs, Nat.add_succ_comm. apply Before. lia.
      * now rewrite Hs, Nat.add_succ_comm.
      * split; [exact V | rewrite F; lia].
Qed.

(** The loop returns false exactly when one of the children it started
    exited with a status other than zero. *)
Lemma attempts_false n todo : forall st,
  let r := attempts env script_path n todo st in
  value r = Returns false <->
  exists k, (spawned st + k < spawned (final r))%nat /\
            failed (child env (spawned st + k) (command script_path)) = true.
Proof.
  induction todo as [|a rest IH]; intros st; cbv zeta.
  - simpl. split; [discriminate | intros (k & H & _); lia].
  - destruct (attempts_cons n a rest st) as (st' & Hd & Hs & E).
    rewrite E. specialize (IH st'). cbv zeta in IH.
    destruct (child env (spawned st) (command script_path)) as [code out err | class text] eqn:C.
    + destruct (Z.eqb_spec code 0) as [->|N].
      * rewrite IH. split.
        -- intros (k & Hk & F). exists (S k).
           rewrite Hs, Nat.add_succ_comm in Hk, F. now split.
        -- intros ([|k] & Hk & F).
           ++ rewrite Nat.add_0_r, C in F. discriminate.
           ++ exists k. rewrite Hs, Nat.add_succ_comm. now split.
      * cbn [value final fst snd]. split; [intros _ | reflexivity].
        exists 0%nat. rewrite Nat.add_0_r, C. split; [lia|].
        simpl. now apply negb_true_iff, Z.eqb_neq.
    + cbn [value final fst snd]. split; [discriminate|].
      intros ([|k] & Hk & F).
      * rewrite Nat.add_0_r, C in F. discriminate.
      * lia.
Qed.

End Runner.

Section RunScript.

Variable env : Env.
Variable script_path : string.

Lemma validate_script_value st b :
  value (validate_script env script_path st) = Returns b <->
  validation env script_path = b.
Proof.
  rewrite validate_script_run. unfold value. cbn [fst].
  split; [now intros [= ->] | now intros ->].
Qed.

(** [run_script] is the validator, then the parser, then the loop. *)
Lemma run_script_run st :
  run_script env script_path st =
  if validation env script_path then
    attempts env script_path (repetitions_of script_path)
             (range (repetitions_of script_path))
             (after st (validation_events env script_path ++
                        [repetitions_entry script_path]))
  else
    (Returns false, after st (validation_events env script_path)).
Proof.
  unfold run_script. unfold bind at 1. rewrite validate_script_run.
  destruct (validation env script_path); cbn [negb]; [|reflexivity].
  unfold bind at 1. rewrite parse_repetitions_run.
  now rewrite <- after_after.
Qed.

Lemma range_length n : List.length (range n) = Z.to_nat n.
Proof. unfold range. now rewrite length_map, length_seq. Qed.

(** Attempt [a] of the run is child number [a - 1] of the loop. *)
Lemma attempt_outcome_nat st k :
  attempt_outcome env st script_path (Z.of_nat k + 1) =
  child env (spawned st + k) (command script_path).
Proof.
  unfold attempt_outcome. do 2 f_equal. lia.
Qed.

Lemma attempt_outcome_after st evs a :
  attempt_outcome env (after st evs) script_path a =
  attempt_outcome env st script_path a.
Proof. reflexivity. Qed.

End RunScript.

(* ================================================================== *)
(** * The claims about [run_script] *)

(** C1.  [run_script] returns true exactly when the path passes
    [validate_script] and every attempt, from the first to the one whose
    number is the parsed count, exits with status zero.  It returns false
    when validation fails, and when an attempt it made exited with a status
    other than zero. *)
Theorem run_script_true_iff (env : Env) (script_path : string) (st : State) :
  let r := run_script env script_path st in
  let n := repetitions_of script_path in
  (value r = Returns true <->
     value (validate_script env script_path st) = Returns true /\
     forall a, 1 <= a <= n ->
               succeeded (attempt_outcome env st script_path a) = true) /\
  (value (validate_script env script_path st) = Returns false ->
     value r = Returns false) /\
  (forall a, 1 <= a <= attempts_made st r ->
             failed (attempt_outcome env st script_path a) = true ->
             value r = Returns false).
Proof.
  cbv zeta. rewrite !validate_script_value, run_script_run.
  set (n := repetitions_of script_path).
  set (st1 := after st _).
  destruct (validation env script_path) eqn:V.
  - split; [|split].
    + rewrite attempts_true, range_length. split.
      * intros H. split; [reflexivity|]. intros a Ha.
        specialize (H (Z.to_nat (a - 1)) ltac:(lia)).
        exact H.
      * intros [_ H] k Hk.
        specialize (H (Z.of_nat k + 1) ltac:(lia)).
        now rewrite attempt_outcome_nat in H.
    + discriminate.
    + intros a Ha F. apply attempts_false.
      exists (Z.to_nat (a - 1)). unfold attempts_made in Ha.
      split; [change (spawned st1) with (spawned st); lia | exact F].
  - split; [|split].
    + split; [discriminate | intros [H _]; discriminate].
    + reflexivity.
    + reflexivity.
Qed.

Lemma run_script_true_iff_witness :
  value (run_script world_ok "a/BSED-3-M-5.py" init) = Returns true.
Proof.
  apply (run_script_true_iff world_ok "a/BSED-3-M-5.py" init).
  split; [reflexivity|]. intros a _. reflexivity.
Defined.

(** C3, as amended.  The attempts [run_script] makes never exceed the
    parsed count.  Its result is failure exactly when validation failed or
    one of the attempts it made failed.  For a unit that passes validation,
    when the attempts before the [k]-th succeed and the [k]-th fails, with
    [k] within the parsed count, exactly [k] attempts are made and the
    result is failure. *)
Theorem run_script_attempts (env : Env) (script_path : string) (st : State) :
  let r := run_script env script_path st in
  let n := repetitions_of script_path in
  0 <= attempts_made st r <= n /\
  (value r = Returns false <->
     value (validate_script env script_path st) = Returns false \/
     exists a, 1 <= a <= attempts_made st r /\
               failed (attempt_outcome env st script_path a) = true) /\
  (forall k,
     value (validate_script env script_path st) = Returns true ->
     1 <= k <= n ->
     (forall j, 1 <= j < k ->
                succeeded (attempt_outcome env st script_path j) = true) ->
     failed (attempt_outcome env st script_path k) = true ->
     attempts_made st r = k /\ value r = Returns false).
Proof.
  cbv zeta. rewrite !validate_script_value, run_script_run.
  pose proof (repetitions_of_nonnegative script_path) as Pos.
  set (n := repetitions_of script_path) in *.
  set (st1 := after st _).
  assert (S1 : spawned st1 = spawned st) by reflexivity.
  destruct (validation env script_path) eqn:V.
  - pose proof (attempts_count env script_path n (range n) st1) as C.
    cbv zeta in C. rewrite range_length, S1 in C. destruct C as [C _].
    unfold attempts_made. split; [lia|]. split.
    + rewrite attempts_false, S1. split.
      * intros (k & Hk & F). right. exists (Z.of_nat k + 1).
        rewrite attempt_outcome_nat. split; [lia | exact F].
      * intros [H | (a & Ha & F)]; [discriminate|].
        exists (Z.to_nat (a - 1)). split; [lia | exact F].
    + intros k _ Hk Before Fail.
      destruct (attempts_first_failure env script_path n (range n) st1
                  (Z.to_nat (k - 1))) as [Val Made].
      * rewrite range_length. lia.
      * intros j Hj. rewrite S1, <- attempt_outcome_nat. apply Before. lia.
      * rewrite S1. exact Fail.
      * split; [rewrite Made, S1; lia | exact Val].
  - unfold attempts_made. cbn [final snd value fst after spawned].
    rewrite Nat.sub_diag. split; [lia|]. split.
    + split; [now left | reflexivity].
    + intros k H. apply validate_script_value in H. congruence.
Qed.

(** The count is 3 and the child of attempt 2 fails: two attempts are
    made and the result is failure. *)
Lemma run_script_attempts_witness :
  attempts_made init (run_script world_flaky "unit-3.py" init) = 2 /\
  value (run_script world_flaky "unit-3.py" init) = Returns false.
Proof.
  apply (run_script_attempts world_flaky "unit-3.py" init).
  - reflexivity.
  - vm_compute. split; discriminate.
  - intros j Hj. replace j with 1 by lia. reflexivity.
  - reflexivity.
Defined.

(** C3, the claim as stated fails: for a path that does not exist the
    result is failure although no attempt was made, let alone failed. *)
Lemma run_script_failure_without_attempt :
  value (run_script world_missing "missing-3.py" init) = Returns false /\
  attempts_made init (run_script world_missing "missing-3.py" init) = 0 /\
  ~ (value (run_script world_missing "missing-3.py" init) = Returns false <->
     exists a,
       1 <= a <= attempts_made init (run_script world_missing "missing-3.py" init) /\
       failed (attempt_outcome world_missing init "missing-3.py" a) = true).
Proof.
  split; [reflexivity|]. split; [reflexivity|].
  intros [H _]. destruct (H eq_refl) as (a & Ha & _).
  change (attempts_made init (run_script world_missing "missing-3.py" init))
    with 0 in Ha. lia.
Qed.

(** C5.  For a path that fails validation [run_script] returns false right
    after the validator: it ends in the state the validator left, having
    made no attempt, drawn no delay, slept no time and started no child. *)
Theorem run_script_invalid (env : Env) (script_path : string) (st : State)
  (Invalid : value (validate_script env script_path st) = Returns false) :
  let r := run_script env script_path st in
  value r = Returns false /\
  final r = final (validate_script env script_path st) /\
  attempts_made st r = 0 /\
  draws (final r) = draws st /\
  spawned (final r) = spawned st /\
  exists evs, trace (final r) = (trace st ++ evs)%list /\
              forallb (fun ev => negb (attempt_event ev)) evs = true.
Proof.
  cbv zeta. apply validate_script_value in Invalid.
  rewrite run_script_run, validate_script_run, Invalid.
  unfold attempts_made. cbn [value final fst snd after draws spawned trace].
  rewrite Nat.sub_diag. repeat split.
  exists (validation_events env script_path).
  split; [reflexivity | apply validation_events_quiet].
Qed.

Lemma run_script_invalid_witness :
  value (validate_script world_missing "missing-3.py" init) = Returns false /\
  value (run_script world_missing "missing-3.py" init) = Returns false /\
  attempts_made init (run_script world_missing "missing-3.py" init) = 0.
Proof.
  split; [reflexivity|].
  destruct (run_script_invalid world_missing "missing-3.py" init eq_refl)
    as (V & _ & A & _).
  split; [exact V | exact A].
Defined.

(** C10.  For a valid path whose file name ends in [-0.py], [run_script]
    returns true without an attempt: after the three checks and the
    parser's entry nothing happens, no delay is drawn or slept and no child
    is started. *)
Theorem run_script_zero_repetitions (env : Env) (script_path pre : string)
  (st : State)
  (Valid : value (validate_script env script_path st) = Returns true)
  (Name : Py.basename script_path = pre ++ "-0.py") :
  let r := run_script env script_path st in
  r = (Returns true,
       after st [Stat Exists script_path; Stat IsFile script_path;
                 Stat AccessR script_path;
                 Log INFO [Lit "Script "; FStr (Py.basename script_path);
                           Lit " will be repeated "; FInt 0; Lit " times"]]) /\
  attempts_made st r = 0 /\
  draws (final r) = draws st /\
  spawned (final r) = spawned st.
Proof.
  cbv zeta. apply validate_script_value in Valid.
  assert (R : Py.re_search (Py.basename script_path) = Some "0").
  { apply (repetitions_of_suffix script_path pre "0");
      [exact Name | discriminate | reflexivity]. }
  rewrite run_script_run, Valid.
  unfold repetitions_of, repetitions_entry, validation_events. rewrite R.
  unfold validation in Valid.
  apply andb_true_iff in Valid as [Valid Hr].
  apply andb_true_iff in Valid as [He Hf].
  rewrite He, Hf, Hr. cbn [negb]. unfold attempts_made.
  change (Py.int "0") with 0. cbn. rewrite Nat.sub_diag. repeat split.
Qed.

Lemma run_script_zero_repetitions_witness :
  value (validate_script world_ok "forms/BSED-0.py" init) = Returns true /\
  Py.basename "forms/BSED-0.py" = "BSED" ++ "-0.py" /\
  value (run_script world_ok "forms/BSED-0.py" init) = Returns true /\
  attempts_made init (run_script world_ok "forms/BSED-0.py" init) = 0.
Proof.
  split; [reflexivity|]. split; [reflexivity|].
  destruct (run_script_zero_repetitions world_ok "forms/BSED-0.py" "BSED" init
              eq_refl eq_refl) as (E & A & _).
  split; [now rewrite E | exact A].
Defined.

(* ================================================================== *)
(** * The orchestrator's loop *)

Local Open Scope list_scope.

Section Lists.

Context {A : Type}.

Lemma filter_permutation (f : A -> bool) (l l' : list A) :
  Permutation l l' -> Permutation (filter f l) (filter f l').
Proof.
  induction 1 as [| x l l' _ IH | x y l | l l' l'' _ IH1 _ IH2]; simpl.
  - constructor.
  - destruct (f x); [now constructor | exact IH].
  - destruct (f x), (f y); try reflexivity. constructor.
  - now transitivity (filter f l').
Qed.

Lemma filter_split (f : A -> bool) (l : list A) :
  Permutation (filter f l ++ filter (fun x => negb (f x)) l) l.
Proof.
  induction l as [|x l IH]; simpl; [constructor|].
  destruct (f x); simpl.
  - now constructor.
  - symmetry. apply Permutation_cons_app. now symmetry.
Qed.

Lemma map_nth_seq (d : A) (l : list A) :
  map (fun i => nth i l d) (seq 0 (List.length l)) = l.
Proof.
  induction l as [|x l IH]; [reflexivity|].
  cbn [List.length seq map nth]. f_equal.
  rewrite <- seq_shift, map_map. exact IH.
Qed.

Lemma nodup_app_disjoint (x y : list A) (s : A) :
  NoDup (x ++ y) -> In s x -> In s y -> False.
Proof.
  induction x as [|a x IH]; simpl; intros ND Hx Hy; [contradiction|].
  inversion ND as [|? ? Hn ND']; subst. destruct Hx as [->|Hx].
  - apply Hn, in_or_app. now right.
  - now apply IH.
Qed.

End Lists.

Section Gather.

Variable resolve : future -> outcome bool.
Variable l : list string.

Lemma getitem_combine (rest : list string) : forall start f st,
  (start <= f < start + List.length rest)%nat ->
  getitem (combine (seq start (List.length rest)) rest) f st =
  (Returns (nth (f - start) rest ""), st).
Proof.
  induction rest as [|x rest IH]; intros start f st H; simpl in H; [lia|].
  cbn [List.length seq combine getitem].
  destruct (Nat.eqb_spec start f) as [->|N].
  - now rewrite Nat.sub_diag.
  - rewrite IH by lia.
    replace (f - start)%nat with (S (f - S start)) by lia. reflexivity.
Qed.

Lemma getitem_submit_all f st :
  (f < List.length l)%nat ->
  getitem (submit_all l) f st = (Returns (script_of l f), st).
Proof.
  intros H. unfold submit_all, script_of.
  rewrite getitem_combine by lia. now rewrite Nat.sub_0_r.
Qed.

(** The loop never raises: it files every future it is given, those whose
    result is true under the successful scripts and all others, the ones
    whose result raised among them, under the failed scripts. *)
Lemma gather_run finished : forall successful failed st,
  Forall (fun f => (f < List.length l)%nat) finished ->
  gather resolve (submit_all l) finished successful failed st =
  (Returns (successful ++ map (script_of l) (filter (won resolve) finished),
            failed ++ map (script_of l) (filter (lost resolve) finished)),
   after st (error_entries resolve l finished)).
Proof.
  induction finished as [|f rest IH]; intros successful failed st H.
  - cbn. rewrite !app_nil_r. unfold ret, after. rewrite app_nil_r.
    now destruct st.
  - inversion H as [|? ? Hf Hrest]; subst.
    cbn [gather]. unfold bind at 1. rewrite (getitem_submit_all f st Hf).
    unfold bind at 1, try_except, future_result, lost, won.
    cbn [filter flat_map error_entries]. unfold bind at 1.
    destruct (resolve f) as [[|]|e] eqn:R; cbn [negb].
    + unfold ret. cbn [fst snd]. rewrite IH by exact Hrest.
      cbn [map]. now rewrite <- app_assoc.
    + unfold ret. cbn [fst snd]. rewrite IH by exact Hrest.
      cbn [map]. now rewrite <- app_assoc.
    + unfold log, bind, ret. rewrite emit_run. cbn [fst snd].
      rewrite IH by exact Hrest. rewrite after_after.
      cbn [map]. now rewrite <- app_assoc.
Qed.

Lemma run_pool_run finished st :
  Forall (fun f => (f < List.length l)%nat) finished ->
  let successful := map (script_of l) (filter (won resolve) finished) in
  let failed := map (script_of l) (filter (lost resolve) finished) in
  run_pool resolve l finished st =
  (Returns (successful, failed),
   after st (error_entries resolve l finished ++ summary successful failed)).
Proof.
  intros H. cbv zeta. unfold run_pool. unfold bind at 1.
  rewrite gather_run by exact H. cbn [app fst snd].
  unfold log, bind, ret. rewrite !emit_run, !after_after. reflexivity.
Qed.

Lemma finished_in_range finished :
  Permutation finished (seq 0 (List.length l)) ->
  Forall (fun f => (f < List.length l)%nat) finished.
Proof.
  intros P. apply Forall_forall. intros f Hf.
  apply (Permutation_in _ P), in_seq in Hf. lia.
Qed.

End Gather.

Lemma scripts_distinct : NoDup scripts.
Proof.
  unfold scripts.
  repeat (constructor; [simpl; intuition discriminate|]). constructor.
Qed.

(** C7.  When the result of a unit's future raises, the loop catches the
    exception, logs an error entry that names the unit and the exception,
    and files the unit under the failed scripts.  The loop itself still
    returns, and every other unit is filed by its own result. *)
Theorem run_pool_catches (resolve : future -> outcome bool) (l : list string)
  (finished : list future) (st : State)
  (Hfin : Permutation finished (seq 0 (List.length l))) :
  exists successful failed st',
    run_pool resolve l finished st = (Returns (successful, failed), st') /\
    (forall f e, (f < List.length l)%nat -> resolve f = Raises e ->
       In (script_of l f) failed /\
       In (error_entry (script_of l f) e) (trace st')) /\
    (forall g b, (g < List.length l)%nat -> resolve g = Returns b ->
       In (script_of l g) (if b then successful else failed)).
Proof.
  eexists _, _, _. split.
  - apply run_pool_run, finished_in_range, Hfin.
  - assert (Mem : forall f, (f < List.length l)%nat -> In f finished).
    { intros f Hf. apply (Permutation_in _ (Permutation_sym Hfin)), in_seq. lia. }
    split.
    + intros f e Hf R. split.
      * apply in_map, filter_In. split; [now apply Mem|].
        unfold lost, won. now rewrite R.
      * cbn [after trace]. apply in_or_app. right. apply in_or_app. left.
        unfold error_entries. apply in_flat_map. exists f.
        split; [now apply Mem|]. rewrite R. now left.
    + intros g b Hg R. destruct b.
      * apply in_map, filter_In. split; [now apply Mem|].
        unfold won. now rewrite R.
      * apply in_map, filter_In. split; [now apply Mem|].
        unfold lost, won. now rewrite R.
Qed.

Lemma run_pool_catches_witness :
  Permutation [1; 0; 2; 3; 4]%nat (seq 0 (List.length scripts)) /\
  exists successful failed st',
    run_pool sample_results scripts [1; 0; 2; 3; 4]%nat init =
    (Returns (successful, failed), st') /\
    In "Automation-Survey/Automation/BSED-2-F-20.py" failed.
Proof.
  assert (P : Permutation [1; 0; 2; 3; 4]%nat (seq 0 (List.length scripts)))
    by (simpl; apply perm_swap).
  split; [exact P|].
  destruct (run_pool_catches sample_results scripts _ init P)
    as (successful & failed & st' & E & Caught & _).
  exists successful, failed, st'. split; [exact E|].
  apply (Caught 2%nat (OtherException "BrokenProcessPool" "worker died"));
    [simpl; lia | reflexivity].
Defined.

(** C8.  When every future has resolved, the two lists of the summary
    together hold every submitted unit once; the successful list holds the
    units whose [run_script] returned true and no other; and another order
    of completion gives the same two lists up to the order of their
    entries.  For scripts that are pairwise distinct, as those of [main]
    are, no script is in both lists. *)
Theorem run_pool_partition (resolve : future -> outcome bool) (l : list string)
  (finished : list future) (st : State)
  (Hfin : Permutation finished (seq 0 (List.length l))) :
  exists successful failed st',
    run_pool resolve l finished st = (Returns (successful, failed), st') /\
    Permutation (successful ++ failed) l /\
    Permutation successful
      (map (script_of l) (filter (won resolve) (seq 0 (List.length l)))) /\
    (NoDup l ->
       forall s, In s l ->
         (In s successful /\ ~ In s failed) \/ (In s failed /\ ~ In s successful)) /\
    (NoDup l ->
       forall f, (f < List.length l)%nat ->
         (In (script_of l f) successful <-> resolve f = Returns true)) /\
    (forall finished' st0,
       Permutation finished' (seq 0 (List.length l)) ->
       exists successful' failed' st0',
         run_pool resolve l finished' st0 = (Returns (successful', failed'), st0') /\
         Permutation successful successful' /\ Permutation failed failed').
Proof.
  eexists _, _, _. split; [apply run_pool_run, finished_in_range, Hfin|].
  assert (All : Permutation
                  (map (script_of l) (filter (won resolve) finished) ++
                   map (script_of l) (filter (lost resolve) finished)) l).
  { transitivity (map (script_of l) (seq 0 (List.length l))).
    - rewrite <- map_app. apply Permutation_map.
      transitivity finished; [apply filter_split | exact Hfin].
    - replace (map (script_of l) (seq 0 (List.length l))) with l;
        [reflexivity | symmetry; apply (map_nth_seq "" l)]. }
  assert (Won : Permutation
                  (map (script_of l) (filter (won resolve) finished))
                  (map (script_of l)
                       (filter (won resolve) (seq 0 (List.length l))))).
  { apply Permutation_map, filter_permutation, Hfin. }
  split; [exact All|]. split; [exact Won|]. split; [|split].
  - intros ND s Hs.
    apply (Permutation_in _ (Permutation_sym All)), in_app_or in Hs.
    apply (Permutation_NoDup (Permutation_sym All)) in ND.
    destruct Hs as [Hs | Hs]; [left | right]; (split; [exact Hs|]); intros Hs'.
    + exact (nodup_app_disjoint _ _ s ND Hs Hs').
    + exact (nodup_app_disjoint _ _ s ND Hs' Hs).
  - intros ND f Hf. split.
    + intros H. apply (Permutation_in _ Won), in_map_iff in H as (g & E & Hg).
      apply filter_In in Hg as [Hg W]. apply in_seq in Hg.
      apply (proj1 (NoDup_nth l "") ND) in E; [|lia|exact Hf]. subst g.
      unfold won in W. destruct (resolve f) as [[|]|]; congruence.
    + intros R. apply (Permutation_in _ (Permutation_sym Won)).
      apply in_map, filter_In. split; [apply in_seq; lia|].
      unfold won. now rewrite R.
  - intros finished' st0 Hfin'. eexists _, _, _.
    split; [apply run_pool_run, finished_in_range, Hfin'|].
    assert (P : Permutation finished finished')
      by (transitivity (seq 0 (List.length l)); [exact Hfin | now symmetry]).
    split; apply Permutation_map, filter_permutation, P.
Qed.

Lemma run_pool_partition_witness :
  Permutation [1; 0; 2; 3; 4]%nat (seq 0 (List.length scripts)) /\
  exists successful failed st',
    main worlds_one_missing [1; 0; 2; 3; 4]%nat init =
    (Returns (successful, failed), st') /\
    Permutation (successful ++ failed) scripts /\
    (In "Automation-Survey/Automation/BSED-3-F-40.py" successful <->
     value (run_script world_ok "Automation-Survey/Automation/BSED-3-F-40.py" init)
     = Returns true).
Proof.
  assert (P : Permutation [1; 0; 2; 3; 4]%nat (seq 0 (List.length scripts)))
    by (simpl; apply perm_swap).
  split; [exact P|].
  destruct (run_pool_partition
              (fun f => value (run_script (worlds_one_missing f)
                                          (script_of scripts f) init))
              scripts _ init P)
    as (successful & failed & st' & E & All & _ & _ & Won & _).
  exists successful, failed, st'. split; [exact E|]. split; [exact All|].
  apply (Won scripts_distinct 4%nat). simpl. lia.
Defined.

(** The five scripts of [main], the first of which does not exist: it is
    the one failed script, whatever the order of completion. *)
Example main_one_missing :
  value (main worlds_one_missing [4; 2; 0; 3; 1]%nat init) =
  Returns (["Automation-Survey/Automation/BSED-3-F-40.py";
            "Automation-Survey/Automation/BSED-2-F-20.py";
            "Automation-Survey/Automation/BSED-3-M-5.py";
            "Automation-Survey/Automation/BSA-3-M-20.py"],
           ["Automation-Survey/Automation/BSME-2-M-105.py"]).
Proof. vm_compute. reflexivity. Qed.

(* ================================================================== *)
(** * More about [run_script]: its trace *)

Section RunTrace.

Variable env : Env.
Variable script_path : string.

Lemma attempt_body_trace n attempt st :
  attempt_body env script_path n attempt st =
  (match child env (spawned st) (command script_path) with
   | Exited code _ _ => Returns (if code =? 0 then None else Some false)
   | RunRaised class text => Raises (OtherException class text)
   end,
   mkState (S (draws st)) (S (spawned st))
           (trace st ++ attempt_events env script_path n attempt
                                       (draws st) (spawned st))).
Proof.
  unfold attempt_body, bind, get_random_delay, log, sleep, try_except,
    subprocess_run, ret, emit, attempt_events, verdict_entries, delay_at,
    attempt_entry, success_entry, failure_entries.
  cbn [draws spawned trace]. unfold command.
  destruct (child env (spawned st) ["python"; script_path])
    as [[|code|code] out err | class text];
    cbn [draws spawned trace Z.eqb]; rewrite <- ?app_assoc; reflexivity.
Qed.

Lemma attempts_step n attempt rest st :
  attempts env script_path n (attempt :: rest) st =
  let st' := mkState (S (draws st)) (S (spawned st))
                     (trace st ++ attempt_events env script_path n attempt
                                                 (draws st) (spawned st)) in
  match child env (spawned st) (command script_path) with
  | Exited code _ _ =>
      if code =? 0 then attempts env script_path n rest st'
      else (Returns false, st')
  | RunRaised class text => (Raises (OtherException class text), st')
  end.
Proof.
  cbn [attempts]. unfold bind at 1. rewrite attempt_body_trace. cbv zeta.
  destruct (child env (spawned st) (command script_path))
    as [code out err | class text]; [|reflexivity].
  destruct (code =? 0); reflexivity.
Qed.

Lemma succeeded_exit code out err :
  succeeded (Exited code out err) = (code =? 0).
Proof. destruct code; reflexivity. Qed.

(** The loop adds its events to the trace and takes nothing away. *)
Lemma attempts_trace n todo : forall st,
  trace (final (attempts env script_path n todo st)) =
  trace st ++ loop_events env script_path n todo (draws st) (spawned st).
Proof.
  induction todo as [|a rest IH]; intros st.
  - cbn. now rewrite app_nil_r.
  - rewrite attempts_step. cbv zeta. cbn [loop_events].
    destruct (child env (spawned st) (command script_path))
      as [code out err | class text] eqn:C.
    + rewrite succeeded_exit. destruct (code =? 0).
      * rewrite IH. cbn [draws spawned trace]. now rewrite <- app_assoc.
      * cbn [final snd trace]. now rewrite app_nil_r.
    + cbn [final snd trace succeeded]. now rewrite app_nil_r.
Qed.

Lemma run_script_trace st :
  trace (final (run_script env script_path st)) =
  trace st ++ run_events env script_path st.
Proof.
  rewrite run_script_run. unfold run_events.
  destruct (validation env script_path).
  - rewrite attempts_trace. cbn [after draws spawned trace].
    rewrite <- !app_assoc. reflexivity.
  - reflexivity.
Qed.

End RunTrace.

Section Events.

Lemma count_app f a b : count f (a ++ b) = (count f a + count f b)%nat.
Proof. unfold count. now rewrite filter_app, length_app. Qed.

Lemma count_quiet f evs :
  (forall ev, In ev evs -> f ev = false) -> count f evs = 0%nat.
Proof.
  unfold count. induction evs as [|ev evs IH]; intros H; [reflexivity|].
  cbn [filter]. rewrite (H ev (or_introl eq_refl)).
  apply IH. intros e He. apply H. now right.
Qed.

Lemma paced_app a b : paced a -> paced b -> paced (a ++ b).
Proof.
  intros Pa Pb before argv rest E.
  apply app_eq_app in E as (mid & [[Ea Eb] | [Ea Eb]]).
  - destruct mid as [|ev mid].
    + rewrite app_nil_r in Ea. subst before. cbn in Eb.
      destruct (Pb [] argv rest (eq_sym Eb)) as (b' & d & E').
      destruct b'; discriminate E'.
    + injection Eb as <- Eb. exact (Pa before argv mid Ea).
  - destruct (Pb mid argv rest Eb) as (b' & d & E').
    exists (a ++ b'), d. now rewrite Ea, E', app_assoc.
Qed.

Lemma paced_quiet evs :
  (forall ev, In ev evs -> is_spawn ev = false) -> paced evs.
Proof.
  intros H before argv rest E.
  assert (In (Spawn argv) evs) as Hin by (rewrite E; apply in_elt).
  apply H in Hin. discriminate Hin.
Qed.

Lemma verdict_entries_logs p n a c ev :
  In ev (verdict_entries p n a c) -> exists lvl msg, ev = Log lvl msg.
Proof.
  unfold verdict_entries, failure_entries, success_entry.
  destruct c as [code out err | class text]; [|contradiction].
  destruct (code =? 0); cbn [In]; intros H;
    repeat (destruct H as [<- | H]; [eexists _, _; reflexivity|]);
    contradiction.
Qed.

Lemma validation_events_no_attempt env p ev :
  In ev (validation_events env p) -> attempt_event ev = false.
Proof.
  intros H. pose proof (validation_events_quiet env p) as Q.
  rewrite forallb_forall in Q. apply Q in H. now apply negb_true_iff.
Qed.

Lemma repetitions_entry_log p :
  exists lvl msg, repetitions_entry p = Log lvl msg.
Proof.
  unfold repetitions_entry.
  destruct (Py.re_search (Py.basename p)); eexists _, _; reflexivity.
Qed.

End Events.

Section LoopEvents.

Variable env : Env.
Variable script_path : string.

Lemma delay_at_range i :
  (3 <= delay_at env i /\ delay_at env i <= 10)%Q.
Proof.
  unfold delay_at. apply uniform_range. vm_compute. discriminate.
Qed.

Lemma attempt_events_counts n a d s :
  count is_sleep (attempt_events env script_path n a d s) = 1%nat /\
  count is_spawn (attempt_events env script_path n a d s) = 1%nat.
Proof.
  unfold attempt_events. rewrite !count_app.
  rewrite (count_quiet is_sleep (verdict_entries _ _ _ _)),
          (count_quiet is_spawn (verdict_entries _ _ _ _)).
  - split; reflexivity.
  - intros ev H. apply verdict_entries_logs in H as (l & m & ->). reflexivity.
  - intros ev H. apply verdict_entries_logs in H as (l & m & ->). reflexivity.
Qed.

Lemma attempt_events_well_formed n a d s :
  Forall (well_formed script_path) (attempt_events env script_path n a d s).
Proof.
  unfold attempt_events. apply Forall_app. split.
  - repeat constructor; apply delay_at_range.
  - apply Forall_forall. intros ev H.
    apply verdict_entries_logs in H as (l & m & ->). exact I.
Qed.

Lemma attempt_events_paced n a d s :
  paced (attempt_events env script_path n a d s).
Proof.
  unfold attempt_events. apply paced_app.
  - intros before argv rest E.
    destruct before as [|e1 [|e2 [|e3 before]]]; try discriminate E.
    + exists [e1], (delay_at env d). injection E as _ <- _ _. reflexivity.
    + injection E as _ _ _ E. destruct before; discriminate E.
  - apply paced_quiet. intros ev H.
    apply verdict_entries_logs in H as (l & m & ->). reflexivity.
Qed.

Lemma loop_events_well_formed n todo : forall d s,
  Forall (well_formed script_path) (loop_events env script_path n todo d s).
Proof.
  induction todo as [|a rest IH]; intros d s; cbn [loop_events].
  - constructor.
  - apply Forall_app. split; [apply attempt_events_well_formed|].
    destruct (succeeded _); [apply IH | constructor].
Qed.

Lemma loop_events_paced n todo : forall d s,
  paced (loop_events env script_path n todo d s).
Proof.
  induction todo as [|a rest IH]; intros d s; cbn [loop_events].
  - apply paced_quiet. intros ev [].
  - apply paced_app; [apply attempt_events_paced|].
    destruct (succeeded _); [apply IH|].
    apply paced_quiet. intros ev [].
Qed.

(** The loop sleeps once and starts one child for every attempt it makes. *)
Lemma loop_events_counts n todo : forall st,
  let evs := loop_events env script_path n todo (draws st) (spawned st) in
  let r := attempts env script_path n todo st in
  count is_sleep evs = (spawned (final r) - spawned st)%nat /\
  count is_spawn evs = (spawned (final r) - spawned st)%nat.
Proof.
  induction todo as [|a rest IH]; intros st; cbv zeta.
  - cbn. now rewrite Nat.sub_diag.
  - cbn [loop_events]. rewrite !count_app.
    destruct (attempt_events_counts n a (draws st) (spawned st)) as [-> ->].
    rewrite attempts_step. cbv zeta.
    destruct (child env (spawned st) (command script_path))
      as [code out err | class text].
    + rewrite succeeded_exit. destruct (code =? 0).
      * set (st' := mkState _ _ _).
        specialize (IH st'). cbv zeta in IH.
        pose proof (attempts_count env script_path n rest st') as [C _].
        change (draws st') with (S (draws st)) in IH.
        change (spawned st') with (S (spawned st)) in IH, C.
        destruct IH as [-> ->]. lia.
      * cbn [final snd spawned count filter List.length]. split; lia.
    + cbn [final snd spawned count filter List.length succeeded].
      split; lia.
Qed.

End LoopEvents.

Section LoopOutcomes.

Variable env : Env.
Variable script_path : string.

(** When the children before the [k]-th exit with status zero and the
    call for the [k]-th raises, the loop raises the same. *)
Lemma attempts_first_raise n todo : forall st k class text,
  (k < List.length todo)%nat ->
  (forall j, (j < k)%nat ->
             succeeded (child env (spawned st + j) (command script_path)) = true) ->
  child env (spawned st + k) (command script_path) = RunRaised class text ->
  let r := attempts env script_path n todo st in
  value r = Raises (OtherException class text) /\
  spawned (final r) = (spawned st + k + 1)%nat.
Proof.
  induction todo as [|a rest IH]; intros st k class text Hk Before Raise;
    cbv zeta.
  - simpl in Hk. lia.
  - rewrite attempts_step. cbv zeta. destruct k as [|k].
    + rewrite Nat.add_0_r in Raise. rewrite Raise.
      cbn [value final fst snd spawned]. split; [reflexivity | lia].
    + pose proof (Before 0%nat ltac:(lia)) as H0. rewrite Nat.add_0_r in H0.
      destruct (child env (spawned st) (command script_path))
        as [code out err | c t]; [|discriminate H0].
      rewrite succeeded_exit in H0. rewrite H0.
      set (st' := mkState _ _ _).
      destruct (IH st' k class text) as [V F].
      * simpl in Hk. lia.
      * intros j Hj. change (spawned st') with (S (spawned st)).
        rewrite Nat.add_succ_comm. apply Before. lia.
      * change (spawned st') with (S (spawned st)).
        now rewrite Nat.add_succ_comm.
      * split; [exact V|]. rewrite F. change (spawned st') with (S (spawned st)).
        lia.
Qed.

(** The loop raises only what the call for its last child raised. *)
Lemma attempts_raises n todo : forall st e,
  let r := attempts env script_path n todo st in
  value r = Raises e ->
  exists k class text,
    (k < List.length todo)%nat /\
    spawned (final r) = (spawned st + k + 1)%nat /\
    child env (spawned st + k) (command script_path) = RunRaised class text /\
    e = OtherException class text.
Proof.
  induction todo as [|a rest IH]; intros st e; cbv zeta.
  - discriminate.
  - rewrite attempts_step. cbv zeta.
    destruct (child env (spawned st) (command script_path))
      as [code out err | c t] eqn:C.
    + destruct (code =? 0); [|discriminate].
      set (st' := mkState _ _ _). intros H.
      apply IH in H as (k & class & text & Hk & F & R & ->).
      change (spawned st') with (S (spawned st)) in F, R.
      exists (S k), class, text. rewrite <- (Nat.add_succ_comm (spawned st) k).
      repeat split; [simpl; lia | rewrite F; lia | exact R].
    + intros [= <-]. exists 0%nat, c, t. rewrite Nat.add_0_r.
      cbn [final snd spawned]. repeat split; [simpl; lia | lia | exact C].
Qed.

(** When every child exits with status zero the loop starts them all. *)
Lemma attempts_all_made n todo : forall st,
  (forall k, (k < List.length todo)%nat ->
             succeeded (child env (spawned st + k) (command script_path)) = true) ->
  spawned (final (attempts env script_path n todo st)) =
  (spawned st + List.length todo)%nat.
Proof.
  induction todo as [|a rest IH]; intros st H.
  - cbn. lia.
  - rewrite attempts_step. cbv zeta.
    pose proof (H 0%nat ltac:(simpl; lia)) as H0. rewrite Nat.add_0_r in H0.
    destruct (child env (spawned st) (command script_path))
      as [code out err | c t]; [|discriminate H0].
    rewrite succeeded_exit in H0. rewrite H0.
    set (st' := mkState _ _ _). rewrite IH.
    + change (spawned st') with (S (spawned st)). simpl. lia.
    + intros k Hk. change (spawned st') with (S (spawned st)).
      rewrite Nat.add_succ_comm. apply H. simpl. lia.
Qed.

(** When the loop returns false, its last events are the three error
    entries for the child it started last. *)
Lemma attempts_failure_entries n todo : forall st,
  let r := attempts env script_path n todo st in
  value r = Returns false ->
  exists k code out err before,
    (k < List.length todo)%nat /\
    spawned (final r) = (spawned st + k + 1)%nat /\
    child env (spawned st + k) (command script_path) = Exited code out err /\
    code <> 0 /\
    loop_events env script_path n todo (draws st) (spawned st) =
    before ++ failure_entries script_path n (nth k todo 0) out err.
Proof.
  induction todo as [|a rest IH]; intros st; cbv zeta.
  - discriminate.
  - rewrite attempts_step. cbv zeta. cbn [loop_events].
    unfold attempt_events, verdict_entries.
    destruct (child env (spawned st) (command script_path))
      as [code out err | c t] eqn:C; [|discriminate].
    rewrite succeeded_exit. destruct (Z.eqb_spec code 0) as [->|N].
    + set (st' := mkState _ _ _). intros H.
      apply IH in H as (k & code & out' & err' & before & Hk & F & R & N & E).
      change (spawned st') with (S (spawned st)) in F, R, E.
      change (draws st') with (S (draws st)) in E.
      exists (S k), code, out', err'. eexists.
      rewrite <- (Nat.add_succ_comm (spawned st) k).
      repeat split; [simpl; lia | rewrite F; lia | exact R | exact N |].
      rewrite E. cbn [nth]. rewrite !app_assoc. reflexivity.
    + intros _. exists 0%nat, code, out, err. eexists.
      rewrite Nat.add_0_r. cbn [final snd spawned nth].
      repeat split; [simpl; lia | lia | exact C | exact N |].
      rewrite app_nil_r. reflexivity.
Qed.

Lemma range_nth n k :
  (k < Z.to_nat n)%nat -> nth k (range n) 0 = Z.of_nat k.
Proof.
  intros H. unfold range.
  change 0 with (Z.of_nat 0). rewrite map_nth, seq_nth by exact H.
  reflexivity.
Qed.

End LoopOutcomes.

Section RunEvents.

Variable env : Env.
Variable script_path : string.

Lemma run_events_well_formed st :
  Forall (well_formed script_path) (run_events env script_path st).
Proof.
  assert (V : Forall (well_formed script_path)
                     (validation_events env script_path)).
  { apply Forall_forall. intros ev H.
    apply validation_events_no_attempt in H. now destruct ev. }
  unfold run_events. destruct (validation env script_path); [|exact V].
  apply Forall_app. split; [exact V|]. constructor.
  - destruct (repetitions_entry_log script_path) as (l & m & ->). exact I.
  - apply loop_events_well_formed.
Qed.

Lemma run_events_paced st : paced (run_events env script_path st).
Proof.
  assert (V : paced (validation_events env script_path)).
  { apply paced_quiet. intros ev H.
    apply validation_events_no_attempt in H. now destruct ev. }
  unfold run_events. destruct (validation env script_path); [|exact V].
  apply paced_app; [exact V|].
  apply (paced_app [repetitions_entry script_path]);
    [|apply loop_events_paced].
  apply paced_quiet. intros ev [<- | []].
  now destruct (repetitions_entry_log script_path) as (l & m & ->).
Qed.

Lemma validation_events_counts f :
  (forall ev, f ev = true -> attempt_event ev = true) ->
  count f (validation_events env script_path) = 0%nat.
Proof.
  intros H. apply count_quiet. intros ev Hev.
  apply validation_events_no_attempt in Hev.
  destruct (f ev) eqn:F; [|reflexivity]. apply H in F. congruence.
Qed.

Lemma run_events_counts st :
  let r := run_script env script_path st in
  count is_sleep (run_events env script_path st) =
    (spawned (final r) - spawned st)%nat /\
  count is_spawn (run_events env script_path st) =
    (spawned (final r) - spawned st)%nat /\
  draws (final r) = (draws st + (spawned (final r) - spawned st))%nat.
Proof.
  cbv zeta. rewrite run_script_run. unfold run_events.
  assert (Sl : forall ev, is_sleep ev = true -> attempt_event ev = true)
    by (intros ev; now destruct ev).
  assert (Sp : forall ev, is_spawn ev = true -> attempt_event ev = true)
    by (intros ev; now destruct ev).
  destruct (validation env script_path).
  - set (n := repetitions_of script_path). set (st1 := after st _).
    rewrite !count_app, !(validation_events_counts _ Sl),
      !(validation_events_counts _ Sp).
    change (repetitions_entry script_path :: ?l)
      with ([repetitions_entry script_path] ++ l).
    rewrite !count_app.
    destruct (repetitions_entry_log script_path) as (l & m & ->).
    pose proof (loop_events_counts env script_path n (range n) st1) as C.
    pose proof (attempts_count env script_path n (range n) st1) as [_ D].
    cbv zeta in C, D.
    change (draws st1) with (draws st) in C, D.
    change (spawned st1) with (spawned st) in C, D.
    destruct C as [-> ->]. cbn [count filter is_sleep is_spawn List.length].
    repeat split; first [exact D | lia].
  - rewrite (validation_events_counts _ Sl), (validation_events_counts _ Sp).
    cbn [final snd after draws spawned]. rewrite Nat.sub_diag. lia.
Qed.

End RunEvents.

(* ================================================================== *)
(** * Further properties of [run_script] *)



(** X8.  A run of [run_script] sleeps once, draws one delay and starts one
    child for each attempt it makes, and does none of the three
    otherwise. *)
Theorem run_script_one_of_each (env : Env) (script_path : string)
  (st : State) :
  let r := run_script env script_path st in
  exists evs,
    trace (final r) = trace st ++ evs /\
    Z.of_nat (count is_sleep evs) = attempts_made st r /\
    Z.of_nat (count is_spawn evs) = attempts_made st r /\
    Z.of_nat (draws (final r)) = Z.of_nat (draws st) + attempts_made st r.
Proof.
  cbv zeta. exists (run_events env script_path st).
  split; [apply run_script_trace|].
  destruct (run_events_counts env script_path st) as (Sl & Sp & D).
  unfold attempts_made. rewrite Sl, Sp, D. repeat split. lia.
Qed.

(** X9.  Every child a run of [run_script] starts is the command
    [python <script_path>], and it is started right after a sleep: the
    event before it in the trace is that sleep. *)
Theorem run_script_children (env : Env) (script_path : string) (st : State) :
  exists evs,
    trace (final (run_script env script_path st)) = trace st ++ evs /\
    (forall argv, In (Spawn argv) evs -> argv = ["python"; script_path]) /\
    (forall before argv rest,
        evs = before ++ Spawn argv :: rest ->
        exists before' seconds, before = before' ++ [Sleep seconds]).
Proof.
  exists (run_events env script_path st). split; [apply run_script_trace|].
  split.
  - intros argv H.
    pose proof (run_events_well_formed env script_path st) as W.
    rewrite Forall_forall in W. exact (W _ H).
  - apply run_events_paced.
Qed.

Lemma run_script_children_witness :
  exists before' seconds,
    firstn 6 (trace (final (run_script world_flaky "unit-3.py" init))) =
    before' ++ [Sleep seconds].
Proof.
  destruct (run_script_children world_flaky "unit-3.py" init)
    as (evs & E & _ & H).
  cbn [trace init app] in E. rewrite E.
  apply (H (firstn 6 evs) ["python"; "unit-3.py"] (skipn 7 evs)).
  rewrite <- E. vm_compute. reflexivity.
Defined.

(** X10.  For a path that passes validation, when the attempts before the
    [k]-th succeed and the call of [subprocess.run] for the [k]-th raises
    something other than [CalledProcessError], [run_script] does not return:
    it raises that exception, after exactly [k] attempts. *)
Theorem run_script_propagates (env : Env) (script_path : string) (st : State)
  (k : Z) (class text : string)
  (Valid : value (validate_script env script_path st) = Returns true)
  (Within : 1 <= k <= repetitions_of script_path)
  (Before : forall j, 1 <= j < k ->
              succeeded (attempt_outcome env st script_path j) = true)
  (Raise : attempt_outcome env st script_path k = RunRaised class text) :
  let r := run_script env script_path st in
  value r = Raises (OtherException class text) /\ attempts_made st r = k.
Proof.
  cbv zeta. apply validate_script_value in Valid.
  rewrite run_script_run, Valid.
  set (n := repetitions_of script_path) in *. set (st1 := after st _).
  destruct (attempts_first_raise env script_path n (range n) st1
              (Z.to_nat (k - 1)) class text) as [V F].
  - rewrite range_length. lia.
  - intros j Hj. change (spawned st1) with (spawned st).
    rewrite <- attempt_outcome_nat. apply Before. lia.
  - exact Raise.
  - split; [exact V|]. unfold attempts_made. rewrite F.
    change (spawned st1) with (spawned st). lia.
Qed.

Lemma run_script_propagates_witness :
  value (run_script
           (mkEnv (fun _ => true) (fun _ => true) (fun _ => true)
                  (fun i => N.of_nat i)
                  (fun i _ => if Nat.eqb i 1
                              then RunRaised "UnicodeDecodeError" "invalid start byte"
                              else Exited 0 "" ""))
           "unit-3.py" init)
  = Raises (OtherException "UnicodeDecodeError" "invalid start byte").
Proof.
  apply (run_script_propagates _ "unit-3.py" init 2).
  - reflexivity.
  - vm_compute. split; discriminate.
  - intros j Hj. replace j with 1 by lia. reflexivity.
  - reflexivity.
Defined.

(** X11.  [run_script] raises only what a call of [subprocess.run] raised:
    when it raises, validation had passed, the exception is the one the
    call for the last attempt made ended with, and it is never a
    [CalledProcessError]. *)
Theorem run_script_raises_only (env : Env) (script_path : string)
  (st : State) (e : PyExn)
  (Raised : value (run_script env script_path st) = Raises e) :
  let r := run_script env script_path st in
  value (validate_script env script_path st) = Returns true /\
  1 <= attempts_made st r <= repetitions_of script_path /\
  exists class text,
    e = OtherException class text /\
    attempt_outcome env st script_path (attempts_made st r)
    = RunRaised class text.
Proof.
  cbv zeta. rewrite validate_script_value.
  rewrite run_script_run in *.
  destruct (validation env script_path); [|discriminate Raised].
  set (n := repetitions_of script_path) in *. set (st1 := after st _) in *.
  apply attempts_raises in Raised as (k & class & text & Hk & F & R & ->).
  rewrite range_length in Hk. change (spawned st1) with (spawned st) in F, R.
  unfold attempts_made. rewrite F.
  split; [reflexivity|]. split; [lia|].
  exists class, text. split; [reflexivity|].
  unfold attempt_outcome. rewrite <- R. do 2 f_equal. lia.
Qed.

Lemma run_script_raises_only_witness :
  1 <= attempts_made init
         (run_script
            (mkEnv (fun _ => true) (fun _ => true) (fun _ => true)
                   (fun i => N.of_nat i)
                   (fun _ _ => RunRaised "FileNotFoundError" "python"))
            "unit-3.py" init)
    <= repetitions_of "unit-3.py".
Proof.
  apply (run_script_raises_only _ "unit-3.py" init
           (OtherException "FileNotFoundError" "python")).
  reflexivity.
Defined.

(** X12.  For a path that passes validation and whose children all exit
    with status zero, [run_script] makes exactly as many attempts as the
    parsed count says, draws that many delays, and returns true. *)
Theorem run_script_all_succeed (env : Env) (script_path : string) (st : State)
  (Valid : value (validate_script env script_path st) = Returns true)
  (All : forall a, 1 <= a <= repetitions_of script_path ->
           succeeded (attempt_outcome env st script_path a) = true) :
  let r := run_script env script_path st in
  value r = Returns true /\
  attempts_made st r = repetitions_of script_path /\
  Z.of_nat (draws (final r)) = Z.of_nat (draws st) + repetitions_of script_path.
Proof.
  cbv zeta. apply validate_script_value in Valid.
  pose proof (repetitions_of_nonnegative script_path) as Pos.
  destruct (run_events_counts env script_path st) as (_ & _ & D).
  rewrite D. unfold attempts_made. rewrite run_script_run, Valid.
  set (n := repetitions_of script_path) in *. set (st1 := after st _).
  assert (H : forall k, (k < List.length (range n))%nat ->
            succeeded (child env (spawned st1 + k) (command script_path)) = true).
  { intros k Hk. rewrite range_length in Hk.
    change (spawned st1) with (spawned st).
    rewrite <- attempt_outcome_nat. apply All. lia. }
  split; [now apply attempts_true|].
  rewrite (attempts_all_made env script_path n (range n) st1 H), range_length.
  change (spawned st1) with (spawned st). lia.
Qed.

Lemma run_script_all_succeed_witness :
  attempts_made init (run_script world_ok "a/BSED-3-M-5.py" init) = 5.
Proof.
  apply (run_script_all_succeed world_ok "a/BSED-3-M-5.py" init).
  - reflexivity.
  - intros a _. reflexivity.
Defined.

(** X13.  When [run_script] returns false for a path that passed
    validation, the last three events of its trace are the error entries
    of the failing attempt: one that names the script and the number of the
    attempt, which is the number of attempts made, and two with the output
    and the error output of the child, which exited with a status other
    than zero. *)
Theorem run_script_failure_log (env : Env) (script_path : string) (st : State)
  (Valid : value (validate_script env script_path st) = Returns true)
  (Failure : value (run_script env script_path st) = Returns false) :
  let r := run_script env script_path st in
  exists before code out err,
    attempt_outcome env st script_path (attempts_made st r)
    = Exited code out err /\
    code <> 0 /\
    trace (final r) =
    before ++
    [Log ERROR [Lit "Error executing "; FStr script_path; Lit " (Attempt ";
                FInt (attempts_made st r); Lit "/";
                FInt (repetitions_of script_path); Lit "):"];
     Log ERROR [Lit "STDOUT: "; FStr out];
     Log ERROR [Lit "STDERR: "; FStr err]].
Proof.
  cbv zeta. apply validate_script_value in Valid.
  rewrite run_script_trace. unfold run_events, attempts_made.
  rewrite run_script_run in *. rewrite Valid in *.
  set (n := repetitions_of script_path) in *. set (st1 := after st _) in *.
  apply attempts_failure_entries in Failure
    as (k & code & out & err & before & Hk & F & C & N & E).
  rewrite range_length in Hk. rewrite range_nth in E by exact Hk.
  change (spawned st1) with (spawned st) in F, C.
  change (spawned st1) with (spawned st) in E.
  change (draws st1) with (draws st) in E.
  rewrite E, F. unfold failure_entries.
  exists (trace st ++ validation_events env script_path ++
          repetitions_entry script_path :: before), code, out, err.
  split; [|split; [exact N|]].
  - unfold attempt_outcome. rewrite <- C. do 2 f_equal. lia.
  - replace (Z.of_nat (spawned st + k + 1 - spawned st)) with (Z.of_nat k + 1)
      by lia.
    rewrite <- !app_assoc. reflexivity.
Qed.

Lemma run_script_failure_log_witness :
  exists before code out err,
    trace (final (run_script world_flaky "unit-3.py" init)) =
    before ++
    [Log ERROR [Lit "Error executing "; FStr "unit-3.py"; Lit " (Attempt ";
                FInt (attempts_made init (run_script world_flaky "unit-3.py" init));
                Lit "/"; FInt (repetitions_of "unit-3.py"); Lit "):"];
     Log ERROR [Lit "STDOUT: "; FStr out];
     Log ERROR [Lit "STDERR: "; FStr err]] /\
    code <> 0.
Proof.
  destruct (run_script_failure_log world_flaky "unit-3.py" init eq_refl eq_refl)
    as (before & code & out & err & _ & N & E).
  exists before, code, out, err. split; [exact E | exact N].
Defined.

(** X14.  A valid script whose file name carries no repetition number is
    run exactly once: [run_script] makes one attempt, and returns true when
    the child exits with status zero and false when it exits with another
    status. *)
Theorem run_script_default_once (env : Env) (script_path : string) (st : State)
  (Valid : value (validate_script env script_path st) = Returns true)
  (NoNumber : Py.re_search (Py.basename script_path) = None) :
  let r := run_script env script_path st in
  attempts_made st r = 1 /\
  (value r = Returns true <->
     succeeded (attempt_outcome env st script_path 1) = true) /\
  (value r = Returns false <->
     failed (attempt_outcome env st script_path 1) = true).
Proof.
  cbv zeta. apply validate_script_value in Valid.
  unfold attempts_made. rewrite run_script_run, Valid.
  unfold repetitions_of. rewrite NoNumber.
  change (range 1) with [0]. set (st1 := after st _).
  rewrite attempts_step. cbv zeta.
  unfold attempt_outcome. change (Z.to_nat (1 - 1)) with 0%nat.
  rewrite Nat.add_0_r. change (spawned st1) with (spawned st).
  destruct (child env (spawned st) (command script_path))
    as [[|code|code] out err | class text];
    cbn [Z.eqb attempts ret value final fst snd spawned succeeded failed negb];
    (split; [lia|]); split; split; intros H;
    try reflexivity; try discriminate H.
Qed.

Lemma run_script_default_once_witness :
  attempts_made init (run_script world_ok "forms/plain.py" init) = 1.
Proof.
  apply (run_script_default_once world_ok "forms/plain.py" init);
    reflexivity.
Defined.

(* ================================================================== *)
(** * Further properties of [parse_repetitions] *)

Local Open Scope string_scope.

Section FileNames.

Lemma after_last_slash_plain name : forall tail,
  occurs "/" name = false -> Py.after_last_slash tail name = tail.
Proof.
  induction name as [|c name IH]; intros tail H; [reflexivity|].
  cbn [occurs] in H. apply orb_false_iff in H as [Hc Hn].
  cbn [Py.after_last_slash]. rewrite Hc. now apply IH.
Qed.

Lemma after_last_slash_join dir name : forall tail,
  occurs "/" name = false ->
  Py.after_last_slash tail (dir ++ "/" ++ name) = name.
Proof.
  induction dir as [|c dir IH]; intros tail H.
  - change ("" ++ "/" ++ name) with (String "/" name).
    cbn [Py.after_last_slash]. rewrite Ascii.eqb_refl.
    now apply after_last_slash_plain.
  - change (String c dir ++ "/" ++ name)
      with (String c (dir ++ "/" ++ name)).
    cbn [Py.after_last_slash].
    destruct (Ascii.eqb c "/"); now apply IH.
Qed.

Lemma basename_plain name :
  occurs "/" name = false -> Py.basename name = name.
Proof. intros H. now apply after_last_slash_plain. Qed.

Lemma basename_join dir name :
  occurs "/" name = false -> Py.basename (dir ++ "/" ++ name) = name.
Proof. intros H. now apply after_last_slash_join. Qed.





End FileNames.





(** X4.  The directory part of a path has no influence on the count: for a
    file name without a slash, [parse_repetitions] does for
    [<dir>/<name>] exactly what it does for [<name>], the same count and
    the same log entry. *)
Theorem parse_repetitions_directory (dir name : string) (st : State)
  (Plain : occurs "/" name = false) :
  parse_repetitions (dir ++ "/" ++ name) st = parse_repetitions name st.
Proof.
  rewrite !parse_repetitions_run.
  unfold repetitions_of, repetitions_entry.
  now rewrite (basename_join dir name Plain), (basename_plain name Plain).
Qed.

Lemma parse_repetitions_directory_witness :
  parse_repetitions ("old-7.py/forms" ++ "/" ++ "BSA-3-M-20.py") init =
  parse_repetitions "BSA-3-M-20.py" init.
Proof.
  apply (parse_repetitions_directory "old-7.py/forms" "BSA-3-M-20.py" init).
  reflexivity.
Defined.

(** X5.  A path that ends with a slash has an empty file name: whatever
    the directory is called, [parse_repetitions] returns 1 and logs the
    warning, with the empty name in it. *)
Theorem parse_repetitions_trailing_slash (dir : string) (st : State) :
  parse_repetitions (dir ++ "/") st =
  (Returns 1,
   mkState (draws st) (spawned st)
           (trace st ++
            [Log WARNING [Lit "No repetition number found for "; FStr "";
                          Lit ". Defaulting to 1."]])).
Proof.
  rewrite parse_repetitions_run. unfold repetitions_of, repetitions_entry.
  change (dir ++ "/") with (dir ++ "/" ++ "").
  rewrite (basename_join dir "" eq_refl). reflexivity.
Qed.



(* ================================================================== *)
(** * Further properties of the other functions *)

Local Open Scope list_scope.





Section PoolFacts.

Variable resolve : future -> outcome bool.
Variable l : list string.

Lemma error_entries_length finished :
  List.length (error_entries resolve l finished) =
  List.length (filter (raised resolve) finished).
Proof.
  unfold error_entries, raised.
  induction finished as [|f rest IH]; [reflexivity|].
  cbn [flat_map filter]. rewrite length_app, IH.
  destruct (resolve f); reflexivity.
Qed.

Lemma error_entries_in finished ev :
  In ev (error_entries resolve l finished) ->
  exists f e, In f finished /\ resolve f = Raises e /\
              ev = error_entry (script_of l f) e.
Proof.
  unfold error_entries. intros H. apply in_flat_map in H as (f & Hf & H).
  destruct (resolve f) as [b|e] eqn:R; [contradiction|].
  destruct H as [<- | []]. now exists f, e.
Qed.

(** With distinct scripts, a script is among those of the futures [fs]
    exactly when its own future is. *)
Lemma in_map_script_of fs f :
  NoDup l -> (f < List.length l)%nat ->
  Forall (fun g => (g < List.length l)%nat) fs ->
  (In (script_of l f) (map (script_of l) fs) <-> In f fs).
Proof.
  intros ND Hf All. split.
  - intros H. apply in_map_iff in H as (g & E & Hg).
    rewrite Forall_forall in All. pose proof (All g Hg) as Hlt.
    apply (proj1 (NoDup_nth l "") ND) in E; [now subst g | exact Hlt | exact Hf].
  - apply in_map.
Qed.

End PoolFacts.

(** X15.  The summary lists follow the order of completion: the successful
    list holds, in the order in which their futures finished, the scripts
    whose result was true, and the failed list holds the others in that
    same order. *)
Theorem run_pool_completion_order (resolve : future -> outcome bool)
  (l : list string) (finished : list future) (st : State)
  (Hfin : Permutation finished (seq 0 (List.length l))) :
  value (run_pool resolve l finished st) =
  Returns (map (script_of l) (filter (won resolve) finished),
           map (script_of l) (filter (lost resolve) finished)).
Proof.
  rewrite (run_pool_run resolve l finished st (finished_in_range l finished Hfin)).
  reflexivity.
Qed.

Lemma run_pool_completion_order_witness :
  value (run_pool sample_results scripts [1; 0; 2; 3; 4]%nat init) =
  Returns (["Automation-Survey/Automation/BSA-3-M-20.py";
            "Automation-Survey/Automation/BSME-2-M-105.py";
            "Automation-Survey/Automation/BSED-3-M-5.py";
            "Automation-Survey/Automation/BSED-3-F-40.py"],
           ["Automation-Survey/Automation/BSED-2-F-20.py"]).
Proof.
  rewrite (run_pool_completion_order sample_results scripts
             [1; 0; 2; 3; 4]%nat init);
    [reflexivity | simpl; apply perm_swap].
Defined.

(** X16.  What the orchestrator's loop logs: one error entry for each
    future whose result raised, naming its script and the exception, and
    after these the three entries of the summary, which show the two lists
    the loop built.  Nothing else is added to the trace. *)
Theorem run_pool_log (resolve : future -> outcome bool) (l : list string)
  (finished : list future) (st : State)
  (Hfin : Permutation finished (seq 0 (List.length l))) :
  exists successful failed st' errors,
    run_pool resolve l finished st = (Returns (successful, failed), st') /\
    trace st' =
    trace st ++ errors ++
    [Log INFO [Lit "Execution Summary:"];
     Log INFO [Lit "Successful Scripts: "; FList successful];
     Log INFO [Lit "Failed Scripts: "; FList failed]] /\
    List.length errors = List.length (filter (raised resolve) finished) /\
    (forall ev, In ev errors ->
       exists f e, In f finished /\ resolve f = Raises e /\
                   ev = Log ERROR [Lit "Unexpected error with ";
                                   FStr (script_of l f); Lit ": "; FExn e]).
Proof.
  eexists _, _, _, (error_entries resolve l finished). split.
  - apply run_pool_run, finished_in_range, Hfin.
  - split; [reflexivity|]. split.
    + apply error_entries_length.
    + apply error_entries_in.
Qed.

Lemma run_pool_log_witness :
  exists successful failed st' errors,
    run_pool sample_results scripts [1; 0; 2; 3; 4]%nat init =
    (Returns (successful, failed), st') /\
    List.length errors = 1%nat /\
    trace st' =
    errors ++
    [Log INFO [Lit "Execution Summary:"];
     Log INFO [Lit "Successful Scripts: "; FList successful];
     Log INFO [Lit "Failed Scripts: "; FList failed]].
Proof.
  destruct (run_pool_log sample_results scripts [1; 0; 2; 3; 4]%nat init)
    as (successful & failed & st' & errors & E & T & Len & _).
  - simpl. apply perm_swap.
  - exists successful, failed, st', errors.
    split; [exact E|]. split; [exact Len | exact T].
Defined.

(** X17.  [main] end to end, for any worlds of the five units and any
    order of completion: a unit whose path fails validation is listed as
    failed and not as successful; a unit whose path passes validation and
    whose attempts all exit with status zero is listed as successful and
    not as failed. *)
Theorem main_files_units (world : future -> Env) (finished : list future)
  (st : State)
  (Hfin : Permutation finished (seq 0 (List.length scripts))) :
  exists successful failed st',
    main world finished st = (Returns (successful, failed), st') /\
    forall f, (f < List.length scripts)%nat ->
      (validation (world f) (script_of scripts f) = false ->
         In (script_of scripts f) failed /\
         ~ In (script_of scripts f) successful) /\
      (validation (world f) (script_of scripts f) = true ->
       (forall a, 1 <= a <= repetitions_of (script_of scripts f) ->
          succeeded (attempt_outcome (world f) init (script_of scripts f) a)
          = true) ->
         In (script_of scripts f) successful /\
         ~ In (script_of scripts f) failed).
Proof.
  pose proof (finished_in_range scripts finished Hfin) as All.
  unfold main. eexists _, _, _. split; [apply run_pool_run, All|].
  set (resolve := fun f => value (run_script (world f) (script_of scripts f) init)).
  assert (Allw : Forall (fun g => (g < List.length scripts)%nat)
                        (filter (won resolve) finished)).
  { apply Forall_forall. intros g Hg. apply filter_In in Hg as [Hg _].
    rewrite Forall_forall in All. now apply All. }
  assert (Alll : Forall (fun g => (g < List.length scripts)%nat)
                        (filter (lost resolve) finished)).
  { apply Forall_forall. intros g Hg. apply filter_In in Hg as [Hg _].
    rewrite Forall_forall in All. now apply All. }
  intros f Hf.
  assert (Mem : In f finished).
  { apply (Permutation_in _ (Permutation_sym Hfin)), in_seq. lia. }
  rewrite (in_map_script_of scripts _ f scripts_distinct Hf Allw),
          (in_map_script_of scripts _ f scripts_distinct Hf Alll),
          !filter_In.
  assert (Res : forall b, resolve f = Returns b ->
            (if b then (In f finished /\ won resolve f = true) /\
                       ~ (In f finished /\ lost resolve f = true)
             else (In f finished /\ lost resolve f = true) /\
                  ~ (In f finished /\ won resolve f = true))).
  { intros b R. unfold lost, won. rewrite R.
    destruct b; (split; [now split | intros [_ H]; discriminate H]). }
  split.
  - intros Inv. apply (Res false). unfold resolve.
    now rewrite run_script_run, Inv.
  - intros Val Ok. apply (Res true). unfold resolve.
    rewrite run_script_run, Val.
    apply attempts_true. intros k Hk. rewrite range_length in Hk.
    cbn [after spawned].
    rewrite <- (attempt_outcome_nat (world f) (script_of scripts f) init k).
    apply Ok. lia.
Qed.

Lemma main_files_units_witness :
  exists successful failed st',
    main worlds_one_missing [1; 0; 2; 3; 4]%nat init =
    (Returns (successful, failed), st') /\
    In "Automation-Survey/Automation/BSME-2-M-105.py" failed /\
    In "Automation-Survey/Automation/BSED-3-M-5.py" successful.
Proof.
  destruct (main_files_units worlds_one_missing [1; 0; 2; 3; 4]%nat init)
    as (successful & failed & st' & E & H).
  - simpl. apply perm_swap.
  - exists successful, failed, st'. split; [exact E|]. split.
    + apply (H 0%nat); [simpl; lia | reflexivity].
    + apply (H 3%nat); [simpl; lia | reflexivity | intros a _; reflexivity].
Defined.

(* ================================================================== *)
(** * The grades of the form script *)

Section Grades.





End Grades.

